(** * pajbot: the "Default Chat States" module

    A shallow embedding of [pajbot/modules/default_chat_states.py]:
    the duration normaliser [parse_follower_duration], and the [SETTINGS]
    table and the two stream life-cycle handlers [on_stream_start] and
    [on_stream_stop] of [DefaultChatStatesModule].

    Python effects are modelled by a writer/error monad [M]: a computation
    yields the list of observable events it performed (log records, chat
    messages sent through the bot, calls to the Twitch Helix API client) and
    either a value or the exception that escaped it.

    The first part of the file is the model, the second part the proofs. *)

From Stdlib Require Import ZArith List String Ascii Bool Lia.
From Stdlib Require Import Floats.SpecFloat.
Import ListNotations.

Local Open Scope string_scope.
Local Open Scope list_scope.
Local Open Scope Z_scope.

(** ** Python values, exceptions and effects *)

Module Py.

(** [requests.Response], as far as the handlers read it. *)
Record Response := { status_code : Z; text : string }.

(** A [requests.HTTPError] instance [e], as [Response.raise_for_status]
    raises it: [str e] is what the f-string [{e}] prints, [response e] is
    [e.response]. *)
Record http_error := { str : string; response : Response }.

(** Exceptions.  [Exception name] stands for any exception class that is
    not a subclass of [HTTPError] (a [requests.ConnectionError], a
    [requests.Timeout], ...). *)
Inductive exn :=
| OverflowError
| ValueError
| ZeroDivisionError
| HTTPError (e : http_error)
| Exception (name : string).

(** Numbers as [pytimeparse.parse] returns them: [int | float].  A Python
    [int] is unbounded; a Python [float] is an IEEE 754 binary64 value. *)
Inductive number :=
| PyInt (z : Z)
| PyFloat (f : spec_float).

Definition prec : Z := 53.
Definition emax : Z := 1024.

(** [float(z)] for an [int] that is exactly representable. *)
Definition float_of_int (z : Z) : spec_float :=
  binary_normalize prec emax z 0 false.

(** [a / b] on two [int]s (CPython's [long_true_divide]): the quotient
    rounded once, to nearest even; [ZeroDivisionError] on [b = 0];
    [OverflowError] when the rounded quotient is not a finite double. *)
Definition long_true_divide (a b : Z) : spec_float + exn :=
  match b with
  | Z0 => inr ZeroDivisionError
  | _ =>
      let negate := xorb (a <? 0) (b <? 0) in
      match a with
      | Z0 => inl (S754_zero negate)
      | _ =>
          let '(q, e, l) :=
            SFdiv_core_binary prec emax (Z.abs a) 0 (Z.abs b) 0 in
          match binary_round_aux prec emax negate q e l with
          | S754_infinity _ => inr OverflowError
          | f => inl f
          end
      end
  end.

(** [x / y] on two [float]s: IEEE division, except that Python raises on
    a zero divisor. *)
Definition float_div (x y : spec_float) : spec_float + exn :=
  match y with
  | S754_zero _ => inr ZeroDivisionError
  | _ => inl (SFdiv prec emax x y)
  end.

(** The [/] operator on [int | float] with an [int] divisor, as used in
    [duration_s / 60]. *)
Definition true_divide (x : number) (d : Z) : spec_float + exn :=
  match x with
  | PyInt z => long_true_divide z d
  | PyFloat f => float_div f (float_of_int d)
  end.

(** [math.floor]: the largest [int] below a [float]; [OverflowError] on an
    infinity and [ValueError] on a NaN. *)
Definition math_floor (f : spec_float) : Z + exn :=
  match f with
  | S754_zero _ => inl 0
  | S754_infinity _ => inr OverflowError
  | S754_nan => inr ValueError
  | S754_finite s m e => inl (Z.shiftl (cond_Zopp s (Zpos m)) e)
  end.

(** Calls to [self.bot.twitch_helix_api]: the method and its arguments
    (broadcaster id, moderator id, authorization, desired state and the
    extra parameter of slow and follower mode). *)
Inductive api_call :=
| update_emote_only_mode (broadcaster_id moderator_id authorization : string)
                         (state : bool)
| update_sub_mode (broadcaster_id moderator_id authorization : string)
                  (state : bool)
| update_unique_chat_mode (broadcaster_id moderator_id authorization : string)
                          (state : bool)
| update_slow_mode (broadcaster_id moderator_id authorization : string)
                   (state : bool) (slow_time : Z)
| update_follower_mode (broadcaster_id moderator_id authorization : string)
                       (state : bool) (duration_m : option Z).

(** What a call to the API client does: return, or raise. *)
Inductive outcome :=
| Returns
| Raises (e : exn).

(** Observable events. *)
Inductive event :=
| LogWarning (msg : string)
| LogError (msg : string)
| SendMessage (msg : string)
| ApiCall (c : api_call).

Definition trace := list event.

(** A computation: the events performed, and a value or the exception
    that escaped. *)
Definition M (A : Type) : Type := trace * (A + exn).

Definition ret {A} (a : A) : M A := ([], inl a).
Definition raise {A} (e : exn) : M A := ([], inr e).

Definition bind {A B} (m : M A) (k : A -> M B) : M B :=
  match m with
  | (tr, inl a) => let '(tr', r) := k a in ((tr ++ tr')%list, r)
  | (tr, inr e) => (tr, inr e)
  end.

Definition lift {A} (r : A + exn) : M A := ([], r).
Definition tell (ev : event) : M unit := ([ev], inl tt).

Definition log_warning (msg : string) : M unit := tell (LogWarning msg).
Definition log_error (msg : string) : M unit := tell (LogError msg).

(** [try: body / except HTTPError as e: handler e]. *)
Definition try_except_HTTPError (body : M unit)
           (handler : http_error -> M unit) : M unit :=
  match body with
  | (tr, inr (HTTPError e)) => let '(tr', r) := handler e in ((tr ++ tr')%list, r)
  | other => other
  end.

(** [if cond: body]. *)
Definition when (cond : bool) (body : M unit) : M unit :=
  if cond then body else ret tt.

End Py.

Import Py.

Declare Scope py_scope.
Delimit Scope py_scope with py.
Notation "x <- m ;; k" := (bind m (fun x => k))
  (at level 61, m at next level, right associativity) : py_scope.
Notation "m ;; k" := (bind m (fun _ => k))
  (at level 61, right associativity) : py_scope.
Notation "'try' body 'except_HTTPError' e '=>' handler" :=
  (try_except_HTTPError body (fun e => handler))
  (at level 60, body at next level, e name, handler at level 200) : py_scope.
Local Open Scope py_scope.

(** ** A model of the duration parser *)

Module Timeparse.

(** The time selectors, and the seconds each is worth. *)
Inductive selector := weeks | days | hours | mins | secs.

Definition MULTIPLIERS (u : selector) : Z :=
  match u with
  | weeks => 60 * 60 * 24 * 7
  | days => 60 * 60 * 24
  | hours => 60 * 60
  | mins => 60
  | secs => 1
  end.

Definition selector_eqb (u v : selector) : bool :=
  match u, v with
  | weeks, weeks | days, days | hours, hours | mins, mins | secs, secs => true
  | _, _ => false
  end.

Definition between (lo hi : nat) (c : ascii) : bool :=
  let n := nat_of_ascii c in (Nat.leb lo n && Nat.leb n hi)%bool.

Definition is_space (c : ascii) : bool := between 9 13 c || between 32 32 c.
Definition is_digit (c : ascii) : bool := between 48 57 c.
Definition is_letter (c : ascii) : bool := between 65 90 c || between 97 122 c.
Definition is_separator (c : ascii) : bool := between 44 44 c || between 47 47 c.

Definition lower (c : ascii) : ascii :=
  if between 65 90 c then ascii_of_nat (nat_of_ascii c + 32) else c.

Fixpoint lowercase (s : string) : string :=
  match s with
  | EmptyString => EmptyString
  | String c r => String (lower c) (lowercase r)
  end.

(** The longest prefix whose characters satisfy [p], and the rest. *)
Fixpoint span (p : ascii -> bool) (s : string) : string * string :=
  match s with
  | EmptyString => (EmptyString, EmptyString)
  | String c r =>
      if p c then let '(a, rest) := span p r in (String c a, rest)
      else (EmptyString, s)
  end.

Definition skip_spaces (s : string) : string := snd (span is_space s).

(** [int(ds, 10)] on a string of digits. *)
Fixpoint int10 (acc : Z) (ds : string) : Z :=
  match ds with
  | EmptyString => acc
  | String c r => int10 (10 * acc + Z.of_nat (nat_of_ascii c - 48)) r
  end.

Definition selector_of_name (w : string) : option selector :=
  let named := existsb (String.eqb w) in
  if named ["w"; "wk"; "wks"; "week"; "weeks"] then Some weeks
  else if named ["d"; "dy"; "dys"; "day"; "days"] then Some days
  else if named ["h"; "hr"; "hrs"; "hour"; "hours"] then Some hours
  else if named ["m"; "min"; "mins"; "minute"; "minutes"] then Some mins
  else if named ["s"; "sec"; "secs"; "second"; "seconds"] then Some secs
  else None.

(** A count and a selector name at the head of [s]. *)
Definition group (s : string) : option (Z * selector * string) :=
  let '(ds, r1) := span is_digit s in
  match ds with
  | EmptyString => None
  | _ =>
      let '(w, r2) := span is_letter (skip_spaces r1) in
      match selector_of_name (lowercase w) with
      | Some u => Some (int10 0 ds, u, r2)
      | None => None
      end
  end.

(** Blanks, then possibly a comma or a slash and more blanks. *)
Definition skip_separator (s : string) : string :=
  let r := skip_spaces s in
  match r with
  | String c r' => if is_separator c then skip_spaces r' else r
  | EmptyString => r
  end.

(** The groups of the selectors [us], in that order, each optional; at
    least one group, and nothing but blanks after the last. *)
Fixpoint timeformat (us : list selector) (s : string) (total : Z)
         (matched : bool) : option Z :=
  match us with
  | [] =>
      match skip_spaces s with
      | EmptyString => if matched then Some total else None
      | _ => None
      end
  | u :: us' =>
      match group (skip_spaces s) with
      | Some (n, u', r) =>
          if selector_eqb u u' then
            timeformat us'
              (match u with secs => r | _ => skip_separator r end)
              (total + MULTIPLIERS u * n) true
          else timeformat us' s total matched
      | None => timeformat us' s total matched
      end
  end.

(** Modelled from the spec: [pytimeparse.parse], a third-party function that
    is not part of the repository's sources.  The model covers the format
    that the label of the [followersonly_time] setting documents ("number
    followed by time format ... Valid time selectors are seconds, minutes,
    hours, days, and weeks") and that the specification asks for (units
    combined in free-form phrasing, such as "1 week", "5 days 12 hours",
    "30m"): an optional sign, then at most one group per selector, from
    weeks down to seconds, each a decimal integer followed by a selector
    name, groups separated by blanks, a comma or a slash.  Fractional counts
    and clock notation (a [.] or a [:] in the text) are outside the model,
    which answers [None] for them. *)
Definition parse (sval : string) : option number :=
  let s := skip_spaces sval in
  let '(sign, unsigned) :=
    match s with
    | String "-" r => (-1, skip_spaces r)
    | String "+" r => (1, skip_spaces r)
    | _ => (1, s)
    end in
  match timeformat [weeks; days; hours; mins; secs] unsigned 0 false with
  | Some total => Some (PyInt (sign * total))
  | None => None
  end.

End Timeparse.

(** ** [parse_follower_duration] *)

Section Normalizer.

(** [pytimeparse.parse], a third-party function: a string is parsed to a
    number of seconds ([int | float]) or to [None]. *)
Variable pytimeparse_parse : string -> option number.

Definition parse_follower_duration (duration_str : string) : M (option Z) :=
  if (duration_str =? "")%string then ret None
  else
    match pytimeparse_parse duration_str with
    | None =>
        log_error ("Failed to parse time from " ++ duration_str)%string ;;
        ret None
    | Some duration_s =>
        quotient <- lift (true_divide duration_s 60) ;;
        floored <- lift (math_floor quotient) ;;
        let duration_m := Z.max floored 0 in
        ret (Some (Z.min duration_m 129600))
    end.

End Normalizer.

(** ** [DefaultChatStatesModule] *)

Definition ONLINE_PHRASE : string := "Goes Online".
Definition OFFLINE_PHRASE : string := "Goes Offline".
Definition NEVER_PHRASE : string := "Never".
Definition PHRASE_OPTIONS : list string :=
  [ONLINE_PHRASE; OFFLINE_PHRASE; NEVER_PHRASE].

(** [self.settings]: one field per key of [SETTINGS].  The values of the
    five "options" settings are the stored phrases. *)
Record Settings := {
  emoteonly : string;
  subonly : string;
  r9k : string;
  slow_option : string;
  slow_time : Z;
  followersonly_option : string;
  followersonly_time : string
}.

(** The defaults declared in [SETTINGS]. *)
Definition default_settings : Settings := {|
  emoteonly := NEVER_PHRASE;
  subonly := NEVER_PHRASE;
  r9k := NEVER_PHRASE;
  slow_option := NEVER_PHRASE;
  slow_time := 30;
  followersonly_option := NEVER_PHRASE;
  followersonly_time := ""
|}.

(** [self.bot], as far as the handlers use it: [streamer.id],
    [bot_user.id], [bot_token_manager] and the behaviour of
    [twitch_helix_api] on each call. *)
Record Bot := {
  streamer_id : string;
  bot_user_id : string;
  bot_token_manager : string;
  twitch_helix_api : api_call -> outcome
}.

Record DefaultChatStatesModule := {
  bot : option Bot;
  settings : Settings
}.

(** A call [self.bot.twitch_helix_api.method(...)]: the call is observed,
    then it returns or raises. *)
Definition invoke (b : Bot) (c : api_call) : M unit :=
  tell (ApiCall c) ;;
  match twitch_helix_api b c with
  | Returns => ret tt
  | Raises e => raise e
  end.

(** [self.bot.send_message(msg)]. *)
Definition send_message (b : Bot) (msg : string) : M unit :=
  tell (SendMessage msg).

Section Handlers.

Variable pytimeparse_parse : string -> option number.

Definition on_stream_start (self : DefaultChatStatesModule) : M bool :=
  match bot self with
  | None =>
      log_warning "on_stream_start failed in DefaultChatStatesModule because bot is None" ;;
      ret true
  | Some b =>
      when (emoteonly (settings self) =? ONLINE_PHRASE)%string
        (try invoke b (update_emote_only_mode
                         (streamer_id b) (bot_user_id b) (bot_token_manager b) true)
         except_HTTPError e =>
           if status_code (response e) =? 401 then
             log_error ("Failed to update emote only mode, unauthorized: "
                        ++ str e ++ " - " ++ text (response e))%string ;;
             send_message b "Error: The bot must be re-authed in order to update emote only mode."
           else
             log_error ("Failed to update emote only mode: "
                        ++ str e ++ " - " ++ text (response e))%string) ;;
      when (subonly (settings self) =? ONLINE_PHRASE)%string
        (try invoke b (update_sub_mode
                         (streamer_id b) (bot_user_id b) (bot_token_manager b) true)
         except_HTTPError e =>
           if status_code (response e) =? 401 then
             log_error ("Failed to update subscriber only mode, unauthorized: "
                        ++ str e ++ " - " ++ text (response e))%string ;;
             send_message b "Error: The bot must be re-authed in order to update subscriber only mode."
           else
             log_error ("Failed to update subscriber only mode: "
                        ++ str e ++ " - " ++ text (response e))%string) ;;
      when (r9k (settings self) =? ONLINE_PHRASE)%string
        (try invoke b (update_unique_chat_mode
                         (streamer_id b) (bot_user_id b) (bot_token_manager b) true)
         except_HTTPError e =>
           if status_code (response e) =? 401 then
             log_error ("Failed to update unique chat mode, unauthorized: "
                        ++ str e ++ " - " ++ text (response e))%string ;;
             send_message b "Error: The bot must be re-authed in order to update unique chat mode."
           else
             log_error ("Failed to update unique chat mode: "
                        ++ str e ++ " - " ++ text (response e))%string) ;;
      when (slow_option (settings self) =? ONLINE_PHRASE)%string
        (try invoke b (update_slow_mode
                         (streamer_id b) (bot_user_id b) (bot_token_manager b) true
                         (slow_time (settings self)))
         except_HTTPError e =>
           if status_code (response e) =? 401 then
             log_error ("Failed to update slow mode, unauthorized: "
                        ++ str e ++ " - " ++ text (response e))%string ;;
             send_message b "Error: The bot must be re-authed in order to update slow mode."
           else
             log_error ("Failed to update slow_mode: "
                        ++ str e ++ " - " ++ text (response e))%string) ;;
      when (followersonly_option (settings self) =? ONLINE_PHRASE)%string
        (duration_m <- parse_follower_duration pytimeparse_parse
                         (followersonly_time (settings self)) ;;
         try invoke b (update_follower_mode
                         (streamer_id b) (bot_user_id b) (bot_token_manager b) true
                         duration_m)
         except_HTTPError e =>
           if status_code (response e) =? 401 then
             log_error ("Failed to update follower mode, unauthorized: "
                        ++ str e ++ " - " ++ text (response e))%string ;;
             send_message b "Error: The bot must be re-authed in order to update follower mode."
           else
             log_error ("Failed to update follower_mode: "
                        ++ str e ++ " - " ++ text (response e))%string) ;;
      ret true
  end.

Definition on_stream_stop (self : DefaultChatStatesModule) : M bool :=
  match bot self with
  | None =>
      log_warning "on_stream_stop failed in DefaultChatStatesModule because bot is None" ;;
      ret true
  | Some b =>
      when (emoteonly (settings self) =? OFFLINE_PHRASE)%string
        (try invoke b (update_emote_only_mode
                         (streamer_id b) (bot_user_id b) (bot_token_manager b) true)
         except_HTTPError e =>
           if status_code (response e) =? 401 then
             log_error ("Failed to update emote only mode, unauthorized: "
                        ++ str e ++ " - " ++ text (response e))%string ;;
             send_message b "Error: The bot must be re-authed in order to update emote only mode."
           else
             log_error ("Failed to update emote only mode: "
                        ++ str e ++ " - " ++ text (response e))%string) ;;
      when (subonly (settings self) =? OFFLINE_PHRASE)%string
        (try invoke b (update_sub_mode
                         (streamer_id b) (bot_user_id b) (bot_token_manager b) true)
         except_HTTPError e =>
           if status_code (response e) =? 401 then
             log_error ("Failed to update subscriber only mode, unauthorized: "
                        ++ str e ++ " - " ++ text (response e))%string ;;
             send_message b "Error: The bot must be re-authed in order to update subscriber only mode."
           else
             log_error ("Failed to update subscriber only mode: "
                        ++ str e ++ " - " ++ text (response e))%string) ;;
      when (r9k (settings self) =? OFFLINE_PHRASE)%string
        (try invoke b (update_unique_chat_mode
                         (streamer_id b) (bot_user_id b) (bot_token_manager b) true)
         except_HTTPError e =>
           if status_code (response e) =? 401 then
             log_error ("Failed to update unique chat mode, unauthorized: "
                        ++ str e ++ " - " ++ text (response e))%string ;;
             send_message b "Error: The bot must be re-authed in order to update unique chat mode."
           else
             log_error ("Failed to update unique chat mode: "
                        ++ str e ++ " - " ++ text (response e))%string) ;;
      when (slow_option (settings self) =? OFFLINE_PHRASE)%string
        (try invoke b (update_slow_mode
                         (streamer_id b) (bot_user_id b) (bot_token_manager b) true
                         (slow_time (settings self)))
         except_HTTPError e =>
           if status_code (response e) =? 401 then
             log_error ("Failed to update slow mode, unauthorized: "
                        ++ str e ++ " - " ++ text (response e))%string ;;
             send_message b "Error: The bot must be re-authed in order to update slow mode."
           else
             log_error ("Failed to update slow_mode: "
                        ++ str e ++ " - " ++ text (response e))%string) ;;
      when (followersonly_option (settings self) =? OFFLINE_PHRASE)%string
        (duration_m <- parse_follower_duration pytimeparse_parse
                         (followersonly_time (settings self)) ;;
         try invoke b (update_follower_mode
                         (streamer_id b) (bot_user_id b) (bot_token_manager b) true
                         duration_m)
         except_HTTPError e =>
           if status_code (response e) =? 401 then
             log_error ("Failed to update follower mode, unauthorized: "
                        ++ str e ++ " - " ++ text (response e))%string ;;
             send_message b "Error: The bot must be re-authed in order to update follower mode."
           else
             log_error ("Failed to update follower_mode: "
                        ++ str e ++ " - " ++ text (response e))%string) ;;
      ret true
  end.

End Handlers.

(** ** The handlers as a table of categories

    The five blocks of each handler differ only in the trigger setting
    read, the API method called (with its extra argument) and the texts
    logged and sent.  [dispatch] runs one [block] per category; the two
    handlers are proved equal to it below, so that the properties of the
    handlers can be proved once per block. *)

Inductive category := EmoteOnly | SubOnly | UniqueChat | Slow | FollowersOnly.

Definition all_categories : list category :=
  [EmoteOnly; SubOnly; UniqueChat; Slow; FollowersOnly].

Definition category_eqb (c c' : category) : bool :=
  match c, c' with
  | EmoteOnly, EmoteOnly | SubOnly, SubOnly | UniqueChat, UniqueChat
  | Slow, Slow | FollowersOnly, FollowersOnly => true
  | _, _ => false
  end.

Definition category_of (call : api_call) : category :=
  match call with
  | update_emote_only_mode _ _ _ _ => EmoteOnly
  | update_sub_mode _ _ _ _ => SubOnly
  | update_unique_chat_mode _ _ _ _ => UniqueChat
  | update_slow_mode _ _ _ _ _ => Slow
  | update_follower_mode _ _ _ _ _ => FollowersOnly
  end.

(** The [state] argument of a call. *)
Definition desired_state (call : api_call) : bool :=
  match call with
  | update_emote_only_mode _ _ _ s | update_sub_mode _ _ _ s
  | update_unique_chat_mode _ _ _ s | update_slow_mode _ _ _ s _
  | update_follower_mode _ _ _ s _ => s
  end.

(** The trigger setting of a category. *)
Definition trigger (st : Settings) (c : category) : string :=
  match c with
  | EmoteOnly => emoteonly st
  | SubOnly => subonly st
  | UniqueChat => r9k st
  | Slow => slow_option st
  | FollowersOnly => followersonly_option st
  end.

Definition mode_name (c : category) : string :=
  match c with
  | EmoteOnly => "emote only mode"
  | SubOnly => "subscriber only mode"
  | UniqueChat => "unique chat mode"
  | Slow => "slow mode"
  | FollowersOnly => "follower mode"
  end.

(** The name used in the log record of a failure that is not a 401. *)
Definition failure_name (c : category) : string :=
  match c with
  | Slow => "slow_mode"
  | FollowersOnly => "follower_mode"
  | _ => mode_name c
  end.

Definition unauthorized_log (c : category) (e : http_error) : string :=
  ("Failed to update " ++ mode_name c ++ ", unauthorized: "
   ++ str e ++ " - " ++ text (response e))%string.

Definition failure_log (c : category) (e : http_error) : string :=
  ("Failed to update " ++ failure_name c ++ ": "
   ++ str e ++ " - " ++ text (response e))%string.

Definition reauth_notice (c : category) : string :=
  ("Error: The bot must be re-authed in order to update "
   ++ mode_name c ++ ".")%string.

(** The body of an [except HTTPError as e] clause. *)
Definition recover (b : Bot) (c : category) (e : http_error) : M unit :=
  if status_code (response e) =? 401 then
    log_error (unauthorized_log c e) ;;
    send_message b (reauth_notice c)
  else
    log_error (failure_log c e).

Definition update (b : Bot) (call : api_call) : M unit :=
  try invoke b call except_HTTPError e => recover b (category_of call) e.

Section Dispatch.

Variable pytimeparse_parse : string -> option number.

(** The call a category makes; followers-only mode first normalises the
    duration text. *)
Definition arguments (st : Settings) (b : Bot) (c : category) : M api_call :=
  let sid := streamer_id b in
  let uid := bot_user_id b in
  let tok := bot_token_manager b in
  match c with
  | EmoteOnly => ret (update_emote_only_mode sid uid tok true)
  | SubOnly => ret (update_sub_mode sid uid tok true)
  | UniqueChat => ret (update_unique_chat_mode sid uid tok true)
  | Slow => ret (update_slow_mode sid uid tok true (slow_time st))
  | FollowersOnly =>
      duration_m <- parse_follower_duration pytimeparse_parse
                      (followersonly_time st) ;;
      ret (update_follower_mode sid uid tok true duration_m)
  end.

Definition block (phrase : string) (st : Settings) (b : Bot)
           (c : category) : M unit :=
  when (trigger st c =? phrase)%string
    (call <- arguments st b c ;; update b call).

(** The call a block makes, if it makes one. *)
Definition planned (phrase : string) (st : Settings) (b : Bot)
           (c : category) : option api_call :=
  if (trigger st c =? phrase)%string then
    match snd (arguments st b c) with
    | inl call => Some call
    | inr _ => None
    end
  else None.

Fixpoint run_blocks (bs : list (M unit)) : M bool :=
  match bs with
  | [] => ret true
  | blk :: bs' => blk ;; run_blocks bs'
  end.

Definition dispatch (phrase : string) (st : Settings) (b : Bot) : M bool :=
  run_blocks (map (block phrase st b) all_categories).

(** The calls a handler would make if no call failed: one per category
    whose trigger matches, whatever the API answers. *)
Definition expected_calls (phrase : string) (st : Settings) (b : Bot)
  : list api_call :=
  flat_map (fun c => match planned phrase st b c with
                     | Some call => [call]
                     | None => []
                     end) all_categories.

End Dispatch.

(** ** Observations on traces *)

Definition api_calls (tr : trace) : list api_call :=
  flat_map (fun ev => match ev with ApiCall c => [c] | _ => [] end) tr.

Definition notices (tr : trace) : list string :=
  flat_map (fun ev => match ev with SendMessage m => [m] | _ => [] end) tr.

Definition error_logs (tr : trace) : list string :=
  flat_map (fun ev => match ev with LogError m => [m] | _ => [] end) tr.

(** How many calls of category [c] a trace holds. *)
Definition calls_for (c : category) (tr : trace) : nat :=
  List.length (filter (fun call => category_eqb (category_of call) c) (api_calls tr)).


(** The call failed with an [HTTPError] whose status is 401. *)
Definition unauthorized (b : Bot) (call : api_call) : bool :=
  match twitch_helix_api b call with
  | Raises (HTTPError e) => status_code (response e) =? 401
  | _ => false
  end.


(** Every failure of the API client is an [HTTPError]. *)
Definition only_http_errors (b : Bot) : Prop :=
  forall call e, twitch_helix_api b call = Raises e ->
                 exists h, e = HTTPError h.

(** A computation returns (no exception escapes it). *)
Definition returns {A} (m : M A) : Prop := exists a, snd m = inl a.

(** ** What the handlers owe *)

(** The call [call] raised [e], which is no [HTTPError], and [e] left the
    handler. *)
Definition escaped (b : Bot) (run : M bool) (call : api_call) (e : exn) : Prop :=
  In call (api_calls (fst run)) /\
  twitch_helix_api b call = Raises e /\
  (forall h, e <> HTTPError h) /\
  snd run = inr e.

(** What a handler owes for the failures of the calls it made: each
    [HTTPError] is in the error log with [str(e)] and [e.response.text], and
    a 401 is also notified in chat; and the handler returns [True], unless
    a call raised something else, which then leaves the handler. *)
Definition recovered (b : Bot) (run : M bool) : Prop :=
  (forall call h,
     In call (api_calls (fst run)) ->
     twitch_helix_api b call = Raises (HTTPError h) ->
     In (if status_code (response h) =? 401
         then unauthorized_log (category_of call) h
         else failure_log (category_of call) h)
        (error_logs (fst run)) /\
     (status_code (response h) = 401 ->
      In (reauth_notice (category_of call)) (notices (fst run)))) /\
  (snd run = inl true \/ exists call e, escaped b run call e).


(** ** The settings table and further observations *)

(** The value of a setting: a text or a number. *)
Inductive setting_value :=
| VStr (s : string)
| VNum (n : Z).

(** A [ModuleSetting(...)] entry of [SETTINGS]; an argument the source does
    not give is [None], or the empty list. *)
Record ModuleSetting := {
  key : string;
  label : string;
  type : string;
  required : bool;
  placeholder : option string;
  default : setting_value;
  options : list string;
  constraints : list (string * Z)
}.

Definition SETTINGS : list ModuleSetting := [
  {| key := "emoteonly";
     label := "Enable emote only mode when the stream...";
     type := "options";
     required := true;
     placeholder := None;
     default := VStr NEVER_PHRASE;
     options := PHRASE_OPTIONS;
     constraints := [] |};
  {| key := "subonly";
     label := "Enable subscriber only mode when the stream...";
     type := "options";
     required := true;
     placeholder := None;
     default := VStr NEVER_PHRASE;
     options := PHRASE_OPTIONS;
     constraints := [] |};
  {| key := "r9k";
     label := "Enable R9K mode when the stream...";
     type := "options";
     required := true;
     placeholder := None;
     default := VStr NEVER_PHRASE;
     options := PHRASE_OPTIONS;
     constraints := [] |};
  {| key := "slow_option";
     label := "Enable slow mode when the stream...";
     type := "options";
     required := true;
     placeholder := None;
     default := VStr NEVER_PHRASE;
     options := PHRASE_OPTIONS;
     constraints := [] |};
  {| key := "slow_time";
     label := "Amount of seconds to use when setting slow mode";
     type := "number";
     required := true;
     placeholder := Some "30";
     default := VNum 30;
     options := [];
     constraints := [("min_value", 1); ("max_value", 1800)] |};
  {| key := "followersonly_option";
     label := "Enable followers only mode when the stream...";
     type := "options";
     required := true;
     placeholder := None;
     default := VStr NEVER_PHRASE;
     options := PHRASE_OPTIONS;
     constraints := [] |};
  {| key := "followersonly_time";
     label := "Amount of time to use when setting followers only mode | Format is number followed by time format. E.g. 30m, 1 week, 5 days 12 hours. Valid time selectors are seconds, minutes, hours, days, and weeks.";
     type := "text";
     required := false;
     placeholder := Some "";
     default := VStr "";
     options := [];
     constraints := [] |}
].

(** The value [v] is one that the entry [s] admits: one of the options of
    an "options" setting, a number within the constraints of a "number"
    setting. *)
Definition admits (s : ModuleSetting) (v : setting_value) : bool :=
  match v with
  | VStr x =>
      if (type s =? "options")%string then existsb (String.eqb x) (options s)
      else (type s =? "text")%string
  | VNum n =>
      (type s =? "number")%string
      && forallb (fun c => if (fst c =? "min_value")%string then snd c <=? n
                           else if (fst c =? "max_value")%string then n <=? snd c
                           else true) (constraints s)
  end.

(** The settings, with another slow time, or another duration text. *)
Definition with_slow_time (st : Settings) (seconds : Z) : Settings :=
  {| emoteonly := emoteonly st;
     subonly := subonly st;
     r9k := r9k st;
     slow_option := slow_option st;
     slow_time := seconds;
     followersonly_option := followersonly_option st;
     followersonly_time := followersonly_time st |}.

Definition with_followersonly_time (st : Settings) (duration : string) : Settings :=
  {| emoteonly := emoteonly st;
     subonly := subonly st;
     r9k := r9k st;
     slow_option := slow_option st;
     slow_time := slow_time st;
     followersonly_option := followersonly_option st;
     followersonly_time := duration |}.

(** A call as the handlers of a module with settings [st] and bot [b] make
    them: on the streamer's channel, as the bot user, with the bot's token
    and state [True]; slow mode with the [slow_time] setting, follower mode
    with no duration or one within [0, 129600]. *)
Definition well_formed (st : Settings) (b : Bot) (call : api_call) : Prop :=
  match call with
  | update_emote_only_mode sid uid tok state
  | update_sub_mode sid uid tok state
  | update_unique_chat_mode sid uid tok state =>
      sid = streamer_id b /\ uid = bot_user_id b /\
      tok = bot_token_manager b /\ state = true
  | update_slow_mode sid uid tok state seconds =>
      sid = streamer_id b /\ uid = bot_user_id b /\
      tok = bot_token_manager b /\ state = true /\ seconds = slow_time st
  | update_follower_mode sid uid tok state duration_m =>
      sid = streamer_id b /\ uid = bot_user_id b /\
      tok = bot_token_manager b /\ state = true /\
      match duration_m with
      | Some minutes => 0 <= minutes <= 129600
      | None => True
      end
  end.

(** The error log record that the failure of a call leaves, if any. *)
Definition failure_record (b : Bot) (call : api_call) : list string :=
  match twitch_helix_api b call with
  | Raises (HTTPError h) =>
      [if status_code (response h) =? 401
       then unauthorized_log (category_of call) h
       else failure_log (category_of call) h]
  | _ => []
  end.

(** What follows a call in the trace: the log record of an [HTTPError]
    and, for a 401, the notice sent to the chat. *)
Definition reaction (b : Bot) (call : api_call) : list event :=
  match twitch_helix_api b call with
  | Raises (HTTPError h) =>
      if status_code (response h) =? 401 then
        [LogError (unauthorized_log (category_of call) h);
         SendMessage (reauth_notice (category_of call))]
      else [LogError (failure_log (category_of call) h)]
  | _ => []
  end.

Section Traces.

Variable pytimeparse_parse : string -> option number.

(** What precedes a call in the trace: the call of follower mode comes
    after the events of the normaliser. *)
Definition prelude (st : Settings) (c : category) : list event :=
  match c with
  | FollowersOnly =>
      fst (parse_follower_duration pytimeparse_parse (followersonly_time st))
  | _ => []
  end.

(** The events that come with a call. *)
Definition events_of (st : Settings) (b : Bot) (call : api_call) : list event :=
  prelude st (category_of call) ++ ApiCall call :: reaction b call.

End Traces.

(** ** Rounding, as the proofs see it *)

(** The clamp of [parse_follower_duration]. *)
Definition clamp (minutes : Z) : Z := Z.min (Z.max minutes 0) 129600.

(** The sign of a float; a NaN has none. *)
Definition sign_of (f : spec_float) : option bool :=
  match f with
  | S754_zero s | S754_infinity s | S754_finite s _ _ => Some s
  | S754_nan => None
  end.

(** Neither infinite nor a NaN. *)
Definition is_finite (f : spec_float) : bool :=
  match f with
  | S754_zero _ | S754_finite _ _ _ => true
  | S754_infinity _ | S754_nan => false
  end.

(** A Python float: a valid binary64 value. *)
Definition is_float (f : spec_float) : Prop := valid_binary prec emax f = true.

(** The numbers on which [duration_s / 60] and [math.floor] do not raise:
    the [int]s below [2 ^ 1028] in magnitude and the finite floats. *)
Definition in_domain (x : number) : Prop :=
  match x with
  | PyInt z => Z.abs z < 2 ^ 1028
  | PyFloat f => is_float f /\ is_finite f = true
  end.

(** The mantissa and exponent after one normalising shift. *)
Definition shift (m e : Z) : Z * Z :=
  let n := fexp prec emax (Zdigits2 m + e) - e in
  if 0 <? n then (m / 2 ^ n, e + n) else (m, e).

(** The float of sign [s], mantissa [m] and exponent [e] after rounding. *)
Definition rounded (s : bool) (m e : Z) : spec_float :=
  match m with
  | Z0 => S754_zero s
  | Zpos p => if e <=? emax - prec then S754_finite s p e else S754_infinity s
  | Zneg _ => S754_nan
  end.

(** The scaling that [/] applies to the dividend before dividing by 60. *)
Definition scale (a : Z) : Z := Z.max (59 - Zdigits2 a) 0.

(** The number of seconds from which [duration_s / 60] overflows: sixty
    times the midpoint between the largest double and [2 ^ 1024]. *)
Definition overflow_bound : Z := 60 * (2 ^ 1024 - 2 ^ 970).

(** The floor of [x / d] in exact arithmetic, for the float [x] of sign
    [s], mantissa [m] and exponent [e] and the positive [int] [d]. *)
Definition exact_floor_div (s : bool) (m : positive) (e : Z) (d : Z) : Z :=
  let n := cond_Zopp s (Z.pos m) in
  if 0 <=? e then (n * 2 ^ e) / d else n / (d * 2 ^ (- e)).

(** ** Concrete modules, bots and API behaviours *)

Definition unauthorized_error : http_error :=
  {| str := "401 Client Error: Unauthorized for url";
     response := {| status_code := 401; text := "Invalid OAuth token" |} |}.

Definition server_error : http_error :=
  {| str := "500 Server Error: Internal Server Error for url";
     response := {| status_code := 500; text := "try again later" |} |}.

(** Emote-only mode is refused with a 401, slow mode fails with a 500, the
    other calls succeed. *)
Definition rejecting_api (call : api_call) : outcome :=
  match category_of call with
  | EmoteOnly => Raises (HTTPError unauthorized_error)
  | Slow => Raises (HTTPError server_error)
  | _ => Returns
  end.

(** The emote-only call fails with an exception that is not an
    [HTTPError]; the other calls succeed. *)
Definition unreachable_api (call : api_call) : outcome :=
  match category_of call with
  | EmoteOnly => Raises (Exception "ConnectionError")
  | _ => Returns
  end.

Definition bot_with (api : api_call -> outcome) : Bot :=
  {| streamer_id := "11148817";
     bot_user_id := "82008718";
     bot_token_manager := "bot-token";
     twitch_helix_api := api |}.

(** The same bot answering API calls differently. *)
Definition with_api (b : Bot) (api : api_call -> outcome) : Bot :=
  {| streamer_id := streamer_id b;
     bot_user_id := bot_user_id b;
     bot_token_manager := bot_token_manager b;
     twitch_helix_api := api |}.

Definition all_online : Settings :=
  {| emoteonly := ONLINE_PHRASE;
     subonly := ONLINE_PHRASE;
     r9k := ONLINE_PHRASE;
     slow_option := ONLINE_PHRASE;
     slow_time := 45;
     followersonly_option := ONLINE_PHRASE;
     followersonly_time := "1 week" |}.

(** The scenario of the specification: emote-only and slow mode go on when
    the stream starts, the rest never. *)
Definition scenario : Settings :=
  {| emoteonly := ONLINE_PHRASE;
     subonly := NEVER_PHRASE;
     r9k := NEVER_PHRASE;
     slow_option := ONLINE_PHRASE;
     slow_time := 45;
     followersonly_option := NEVER_PHRASE;
     followersonly_time := "" |}.

Definition module_with (api : api_call -> outcome) (st : Settings)
  : DefaultChatStatesModule :=
  {| bot := Some (bot_with api); settings := st |}.

Fixpoint zeros (n : nat) : string :=
  match n with
  | O => EmptyString
  | S k => String "0" (zeros k)
  end.

(** A one followed by four hundred zeros, in seconds. *)
Definition huge_duration : string := String "1" (zeros 400 ++ "s").

(** [5400.0], the seconds of an hour and a half, and the float just
    below it. *)
Definition ninety_minutes : spec_float :=
  S754_finite false 5937362789990400 (-40).

Definition almost_ninety_minutes : spec_float :=
  S754_finite false 5937362789990399 (-40).

Ltac forget_pow :=
  repeat match goal with
         | |- context [?b ^ ?e] =>
             let x := fresh "pw" in set (x := b ^ e) in *; clearbody x
         | H : context [?b ^ ?e] |- _ =>
             let x := fresh "pw" in set (x := b ^ e) in *; clearbody x
         end.

(** * Proofs *)

(** ** Monad and trace lemmas *)

Lemma bind_ret_l {A B} (a : A) (k : A -> M B) : bind (ret a) k = k a.
Proof. unfold bind, ret. destruct (k a). reflexivity. Qed.

Lemma fst_bind {A B} (m : M A) (k : A -> M B) :
  fst (bind m k) =
  (fst m ++ match snd m with inl a => fst (k a) | inr _ => [] end)%list.
Proof.
  destruct m as [tr [a | e]]; simpl.
  - destruct (k a); reflexivity.
  - now rewrite app_nil_r.
Qed.

Lemma snd_bind {A B} (m : M A) (k : A -> M B) :
  snd (bind m k) =
  match snd m with inl a => snd (k a) | inr e => inr e end.
Proof.
  destruct m as [tr [a | e]]; simpl; [destruct (k a)|]; reflexivity.
Qed.

Lemma bind_bind_ret {A B C} (m : M A) (f : A -> B) (k : B -> M C) :
  bind (bind m (fun x => ret (f x))) k = bind m (fun x => k (f x)).
Proof.
  destruct m as [tr [a | e]]; simpl; [|reflexivity].
  rewrite app_nil_r. reflexivity.
Qed.

Lemma on_stream_start_dispatch parse self :
  on_stream_start parse self =
  match bot self with
  | None =>
      log_warning "on_stream_start failed in DefaultChatStatesModule because bot is None" ;;
      ret true
  | Some b => dispatch parse ONLINE_PHRASE (settings self) b
  end.
Proof.
  unfold on_stream_start, dispatch. destruct (bot self) as [b|]; [|reflexivity].
  cbn [map all_categories run_blocks]. unfold block, arguments.
  rewrite !bind_ret_l, bind_bind_ret. reflexivity.
Qed.

Lemma on_stream_stop_dispatch parse self :
  on_stream_stop parse self =
  match bot self with
  | None =>
      log_warning "on_stream_stop failed in DefaultChatStatesModule because bot is None" ;;
      ret true
  | Some b => dispatch parse OFFLINE_PHRASE (settings self) b
  end.
Proof.
  unfold on_stream_stop, dispatch. destruct (bot self) as [b|]; [|reflexivity].
  cbn [map all_categories run_blocks]. unfold block, arguments.
  rewrite !bind_ret_l, bind_bind_ret. reflexivity.
Qed.

Lemma bind_returns {A B} (m : M A) (k : A -> M B) :
  returns m -> (forall a, returns (k a)) -> returns (bind m k).
Proof.
  intros [a Ha] Hk. unfold returns. rewrite snd_bind, Ha. apply Hk.
Qed.

Lemma api_calls_app tr tr' :
  api_calls (tr ++ tr') = (api_calls tr ++ api_calls tr')%list.
Proof. apply flat_map_app. Qed.

Lemma notices_app tr tr' :
  notices (tr ++ tr') = (notices tr ++ notices tr')%list.
Proof. apply flat_map_app. Qed.

Lemma error_logs_app tr tr' :
  error_logs (tr ++ tr') = (error_logs tr ++ error_logs tr')%list.
Proof. apply flat_map_app. Qed.

Lemma calls_for_app c tr tr' :
  calls_for c (tr ++ tr') = (calls_for c tr + calls_for c tr')%nat.
Proof.
  unfold calls_for. now rewrite api_calls_app, filter_app, length_app.
Qed.



Lemma category_eqb_eq c c' : category_eqb c c' = true <-> c = c'.
Proof. destruct c, c'; simpl; split; congruence. Qed.



(** *** One call with its [except] clause *)

Lemma update_cases b call :
  update b call =
  match twitch_helix_api b call with
  | Returns => ([ApiCall call], inl tt)
  | Raises (HTTPError h) =>
      if status_code (response h) =? 401 then
        ([ApiCall call;
          LogError (unauthorized_log (category_of call) h);
          SendMessage (reauth_notice (category_of call))], inl tt)
      else
        ([ApiCall call; LogError (failure_log (category_of call) h)], inl tt)
  | Raises e => ([ApiCall call], inr e)
  end.
Proof.
  unfold update, invoke, recover, try_except_HTTPError.
  destruct (twitch_helix_api b call) as [|[| | |h|n]]; try reflexivity.
  simpl. destruct (status_code (response h) =? 401); reflexivity.
Qed.

Lemma update_api_calls b call : api_calls (fst (update b call)) = [call].
Proof.
  rewrite update_cases.
  destruct (twitch_helix_api b call) as [|[| | |h|n]]; try reflexivity.
  destruct (status_code (response h) =? 401); reflexivity.
Qed.

Lemma update_notices b call :
  notices (fst (update b call)) =
  if unauthorized b call then [reauth_notice (category_of call)] else [].
Proof.
  rewrite update_cases. unfold unauthorized.
  destruct (twitch_helix_api b call) as [|[| | |h|n]]; try reflexivity.
  destruct (status_code (response h) =? 401); reflexivity.
Qed.

Lemma update_error_logs b call :
  error_logs (fst (update b call)) =
  match twitch_helix_api b call with
  | Raises (HTTPError h) =>
      [if status_code (response h) =? 401
       then unauthorized_log (category_of call) h
       else failure_log (category_of call) h]
  | _ => []
  end.
Proof.
  rewrite update_cases.
  destruct (twitch_helix_api b call) as [|[| | |h|n]]; try reflexivity.
  destruct (status_code (response h) =? 401); reflexivity.
Qed.

Lemma update_result b call :
  snd (update b call) =
  match twitch_helix_api b call with
  | Returns | Raises (HTTPError _) => inl tt
  | Raises e => inr e
  end.
Proof.
  rewrite update_cases.
  destruct (twitch_helix_api b call) as [|[| | |h|n]]; try reflexivity.
  destruct (status_code (response h) =? 401); reflexivity.
Qed.

Lemma update_returns b call : only_http_errors b -> returns (update b call).
Proof.
  intros Hb. unfold returns. rewrite update_result.
  destruct (twitch_helix_api b call) as [|e] eqn:E; [now exists tt|].
  destruct (Hb _ _ E) as [h ->]. now exists tt.
Qed.


(** ** Rounding *)

(** *** Rounding never yields a NaN *)

Lemma shr_1_nonneg mrs : 0 <= shr_m mrs -> 0 <= shr_m (shr_1 mrs).
Proof.
  destruct mrs as [m r s]. cbn [shr_m]. intros Hm.
  destruct m as [|[p|p|]|p]; cbn; lia.
Qed.

Lemma iter_pos_shr_1_nonneg p mrs :
  0 <= shr_m mrs -> 0 <= shr_m (iter_pos shr_1 p mrs).
Proof.
  revert mrs. induction p as [p IH|p IH|]; intros mrs Hm; cbn [iter_pos].
  - apply IH, IH. now apply shr_1_nonneg.
  - now apply IH, IH.
  - now apply shr_1_nonneg.
Qed.

Lemma shr_fexp_nonneg m e l :
  0 <= m -> 0 <= shr_m (fst (shr_fexp prec emax m e l)).
Proof.
  intros Hm. unfold shr_fexp, shr.
  assert (H0 : 0 <= shr_m (shr_record_of_loc m l))
    by (destruct l as [|[]]; exact Hm).
  destruct (fexp prec emax (Zdigits2 m + e) - e); cbn [fst];
    [assumption | now apply iter_pos_shr_1_nonneg | assumption].
Qed.

Lemma round_nearest_even_nonneg m l : 0 <= m -> 0 <= round_nearest_even m l.
Proof.
  intros Hm. destruct l as [|[]]; cbn; [assumption | | assumption | lia].
  destruct (Z.even m); lia.
Qed.

Lemma binary_round_aux_sign s m e l :
  0 <= m -> sign_of (binary_round_aux prec emax s m e l) = Some s.
Proof.
  intros Hm. unfold binary_round_aux.
  pose proof (shr_fexp_nonneg m e l Hm) as H1.
  destruct (shr_fexp prec emax m e l) as [mrs' e']. cbn [fst] in H1.
  pose proof (shr_fexp_nonneg _ e' loc_Exact
                (round_nearest_even_nonneg _ (loc_of_shr_record mrs') H1)) as H2.
  destruct (shr_fexp prec emax
              (round_nearest_even (shr_m mrs') (loc_of_shr_record mrs')) e' loc_Exact)
    as [mrs'' e'']. cbn [fst] in H2.
  destruct (shr_m mrs'') as [|p|p]; [reflexivity | | lia].
  destruct (e'' <=? emax - prec); reflexivity.
Qed.

Lemma SFdiv_core_binary_nonneg m1 e1 m2 e2 :
  0 <= m1 -> 0 < m2 ->
  0 <= fst (fst (SFdiv_core_binary prec emax m1 e1 m2 e2)).
Proof.
  intros H1 H2. unfold SFdiv_core_binary.
  set (s := e1 - e2 - _).
  set (m' := match s with Z0 => m1 | Zpos _ => Z.shiftl m1 s | Zneg _ => 0 end).
  assert (Hm' : 0 <= m').
  { subst m'. destruct s; [assumption | now apply Z.shiftl_nonneg | lia]. }
  pose proof (Z.div_pos m' m2 Hm' H2) as Hq. unfold Z.div in Hq.
  destruct (Z.div_eucl m' m2) as [q r]. exact Hq.
Qed.

(** [a / b] on [int]s is a float of the quotient's sign, or overflows. *)
Lemma long_true_divide_sign a b :
  b <> 0 ->
  match long_true_divide a b with
  | inl f => sign_of f = Some (xorb (a <? 0) (b <? 0)) /\
             forall s, f <> S754_infinity s
  | inr e => e = OverflowError
  end.
Proof.
  intros Hb. unfold long_true_divide.
  destruct b as [|pb|pb]; [congruence| |];
    (destruct a as [|pa|pa]; [split; [reflexivity | discriminate] | |]);
    match goal with
    | |- context [SFdiv_core_binary prec emax ?x 0 ?y 0] =>
        pose proof (SFdiv_core_binary_nonneg x 0 y 0 ltac:(cbn; lia) ltac:(cbn; lia)) as Hq;
        destruct (SFdiv_core_binary prec emax x 0 y 0) as [[q e] l];
        cbn [fst] in Hq
    end;
    match goal with
    | |- context [binary_round_aux prec emax ?s ?q ?e ?l] =>
        pose proof (binary_round_aux_sign s q e l Hq) as Hs;
        destruct (binary_round_aux prec emax s q e l);
        first [ reflexivity | split; [exact Hs | discriminate] ]
    end.
Qed.

(** [math.floor] of a float that is neither infinite nor a NaN is an [int]
    of the float's sign. *)
Lemma math_floor_sign f s :
  sign_of f = Some s -> (forall s', f <> S754_infinity s') ->
  exists n, math_floor f = inl n /\ (if s then n <= 0 else 0 <= n).
Proof.
  destruct f as [s0|s0| |s0 m e]; cbn [sign_of math_floor]; intros [= <-] Hinf.
  - exists 0. split; [reflexivity | destruct s0; lia].
  - now destruct (Hinf s0).
  - eexists. split; [reflexivity|].
    destruct s0; cbn [cond_Zopp].
    + assert (Z.shiftl (- Z.pos m) e < 0); [|lia].
      apply Z.shiftl_neg. lia.
    + apply Z.shiftl_nonneg. lia.
Qed.

(** *** Digits and shifts *)

Lemma digits2_pos_spec p :
  2 ^ (Z.pos (digits2_pos p) - 1) <= Z.pos p < 2 ^ Z.pos (digits2_pos p).
Proof.
  induction p as [p IH|p IH|]; cbn [digits2_pos].
  - rewrite Pos2Z.inj_succ, Pos2Z.inj_xI.
    replace (Z.succ (Z.pos (digits2_pos p)) - 1) with (Z.succ (Z.pos (digits2_pos p) - 1)) by lia.
    rewrite !Z.pow_succ_r by lia.
    forget_pow. lia.
  - rewrite Pos2Z.inj_succ. change (Z.pos p~0) with (2 * Z.pos p).
    replace (Z.succ (Z.pos (digits2_pos p)) - 1) with (Z.succ (Z.pos (digits2_pos p) - 1)) by lia.
    rewrite !Z.pow_succ_r by lia.
    forget_pow. lia.
  - split; [apply Z.leb_le | apply Z.ltb_lt]; reflexivity.
Qed.

Lemma Zdigits2_spec m :
  0 < m -> 1 <= Zdigits2 m /\ 2 ^ (Zdigits2 m - 1) <= m < 2 ^ Zdigits2 m.
Proof.
  destruct m as [|p|p]; try lia. intros _. cbn [Zdigits2].
  split; [lia | apply digits2_pos_spec].
Qed.

Lemma Zdigits2_unique m d :
  2 ^ (d - 1) <= m < 2 ^ d -> 1 <= d -> Zdigits2 m = d.
Proof.
  intros [Hlo Hhi] Hd.
  assert (Hm : 0 < m) by (pose proof (Z.pow_pos_nonneg 2 (d - 1)); lia).
  destruct (Zdigits2_spec m Hm) as (H1 & Hlo' & Hhi').
  destruct (Z.lt_trichotomy (Zdigits2 m) d) as [H|[H|H]]; [|assumption|].
  - assert (2 ^ Zdigits2 m <= 2 ^ (d - 1)) by (apply Z.pow_le_mono_r; lia). lia.
  - assert (2 ^ d <= 2 ^ (Zdigits2 m - 1)) by (apply Z.pow_le_mono_r; lia). lia.
Qed.

Lemma Zdigits2_le m d : 0 <= m -> 0 <= d -> m < 2 ^ d -> Zdigits2 m <= d.
Proof.
  intros Hm Hd Hlt. destruct (Z.eq_dec m 0) as [->|Hne]; [cbn; lia|].
  destruct (Zdigits2_spec m ltac:(lia)) as (H1 & Hlo & _).
  destruct (Z_le_gt_dec (Zdigits2 m) d) as [H|H]; [assumption|].
  assert (2 ^ d <= 2 ^ (Zdigits2 m - 1)) by (apply Z.pow_le_mono_r; lia). lia.
Qed.

Lemma shr_1_div2 mrs : 0 <= shr_m mrs -> shr_m (shr_1 mrs) = shr_m mrs / 2.
Proof.
  destruct mrs as [m r s]. cbn [shr_m]. intros Hm.
  destruct m as [|[p|p|]|p]; cbn [shr_1 shr_m]; try lia; try reflexivity.
  - change (Z.pos p~1) with (2 * Z.pos p + 1).
    apply Z.div_unique with 1; lia.
  - change (Z.pos p~0) with (2 * Z.pos p).
    apply Z.div_unique with 0; lia.
Qed.

Lemma iter_pos_shr_1_div p mrs :
  0 <= shr_m mrs -> shr_m (iter_pos shr_1 p mrs) = shr_m mrs / 2 ^ Z.pos p.
Proof.
  revert mrs. induction p as [p IH|p IH|]; intros mrs Hm; cbn [iter_pos].
  - rewrite IH, IH, shr_1_div2 by
      (try apply iter_pos_shr_1_nonneg; try apply shr_1_nonneg; assumption).
    rewrite !Z.div_div by (try apply Z.pow_pos_nonneg; lia).
    f_equal. rewrite Pos2Z.inj_xI, <- Z.pow_add_r, <- (Z.pow_1_r 2) at 1 by lia.
    rewrite <- Z.pow_add_r by lia. f_equal. lia.
  - rewrite IH, IH by (try apply iter_pos_shr_1_nonneg; assumption).
    rewrite !Z.div_div by (try apply Z.pow_pos_nonneg; lia).
    f_equal. rewrite Pos2Z.inj_xO, <- Z.pow_add_r by lia. f_equal. lia.
  - now rewrite shr_1_div2.
Qed.

Lemma shr_fexp_shift m e l :
  0 <= m ->
  (shr_m (fst (shr_fexp prec emax m e l)), snd (shr_fexp prec emax m e l))
  = shift m e.
Proof.
  intros Hm. unfold shr_fexp, shr, shift.
  assert (H0 : shr_m (shr_record_of_loc m l) = m) by (now destruct l as [|[]]).
  destruct (fexp prec emax (Zdigits2 m + e) - e) as [|p|p]; cbn [fst snd Z.ltb Z.compare].
  - now rewrite H0.
  - rewrite iter_pos_shr_1_div, H0 by (rewrite H0; exact Hm). reflexivity.
  - now rewrite H0.
Qed.

Lemma binary_round_aux_shift s q e l :
  0 <= q ->
  exists m2,
    (m2 = fst (shift q e) \/ m2 = fst (shift q e) + 1) /\
    binary_round_aux prec emax s q e l =
    rounded s (fst (shift m2 (snd (shift q e)))) (snd (shift m2 (snd (shift q e)))).
Proof.
  intros Hq. unfold binary_round_aux.
  pose proof (shr_fexp_shift q e l Hq) as H1.
  pose proof (shr_fexp_nonneg q e l Hq) as Hn1.
  destruct (shr_fexp prec emax q e l) as [mrs' e']. cbn [fst snd] in H1, Hn1.
  set (m2 := round_nearest_even (shr_m mrs') (loc_of_shr_record mrs')).
  assert (Hm2 : 0 <= m2) by now apply round_nearest_even_nonneg.
  pose proof (shr_fexp_shift m2 e' loc_Exact Hm2) as H2.
  destruct (shr_fexp prec emax m2 e' loc_Exact) as [mrs'' e'']. cbn [fst snd] in H2.
  exists m2. rewrite <- H1. cbn [fst snd]. rewrite <- H2. cbn [fst snd]. split.
  - subst m2. unfold round_nearest_even.
    destruct (loc_of_shr_record mrs') as [|[]]; auto.
    destruct (Z.even (shr_m mrs')); auto.
  - reflexivity.
Qed.

Lemma fexp_eq x : fexp prec emax x = Z.max (x - 53) (-1074).
Proof. reflexivity. Qed.

Lemma pow2_pos n : 0 <= n -> 0 < 2 ^ n.
Proof. intros. now apply Z.pow_pos_nonneg. Qed.

Lemma pow2_split n k : 0 <= k <= n -> 2 ^ n = 2 ^ (n - k) * 2 ^ k.
Proof. intros. rewrite <- Z.pow_add_r by lia. f_equal. lia. Qed.

(** A mantissa of at least 53 digits is cut down to exactly 53. *)
Lemma shift_normal q e :
  0 < q -> 53 <= Zdigits2 q -> -1074 <= e ->
  shift q e = (q / 2 ^ (Zdigits2 q - 53), e + (Zdigits2 q - 53)) /\
  2 ^ 52 <= q / 2 ^ (Zdigits2 q - 53) < 2 ^ 53.
Proof.
  intros Hq Hd He.
  destruct (Zdigits2_spec q Hq) as (_ & Hlo & Hhi).
  set (d := Zdigits2 q) in *.
  split.
  - unfold shift. fold d. rewrite fexp_eq.
    replace (Z.max (d + e - 53) (-1074) - e) with (d - 53) by lia.
    destruct (Z.ltb_spec 0 (d - 53)) as [H|H]; [reflexivity|].
    replace (d - 53) with 0 by lia. now rewrite Z.div_1_r, Z.add_0_r.
  - rewrite (pow2_split (d - 1) (d - 53)) in Hlo by lia.
    rewrite (pow2_split d (d - 53)) in Hhi by lia.
    replace (d - 1 - (d - 53)) with 52 in Hlo by lia.
    replace (d - (d - 53)) with 53 in Hhi by lia.
    pose proof (pow2_pos (d - 53) ltac:(lia)) as Hp.
    split.
    + apply Z.div_le_lower_bound; lia.
    + apply Z.div_lt_upper_bound; lia.
Qed.

(** A rounded mantissa of 53 digits stays, and [2 ^ 53] becomes
    [2 ^ 52] one exponent up: the floor is the same. *)
Lemma shift_rounded m e :
  2 ^ 52 <= m <= 2 ^ 53 -> -1074 <= e ->
  exists m' e', shift m e = (Z.pos m', e') /\ e' <= e + 1 /\
                Z.shiftl (Z.pos m') e' = Z.shiftl m e.
Proof.
  intros Hm He. destruct (Z.eq_dec m (2 ^ 53)) as [->|Hne].
  - exists (2 ^ 52)%positive, (e + 1). unfold shift.
    replace (Zdigits2 (2 ^ 53)) with 54 by reflexivity. rewrite fexp_eq.
    replace (Z.max (54 + e - 53) (-1074) - e) with 1 by lia.
    cbn [Z.ltb Z.compare]. split; [reflexivity|]. split; [lia|].
    change (2 ^ 53) with (Z.shiftl (Z.pos (2 ^ 52)) 1).
    rewrite Z.shiftl_shiftl by lia. f_equal. lia.
  - assert (Hd : Zdigits2 m = 53) by (apply Zdigits2_unique; [change (53 - 1) with 52|]; lia).
    destruct m as [|p|p]; try (exfalso; cbn in Hm; lia).
    exists p, e. unfold shift. rewrite Hd, fexp_eq.
    replace (Z.max (53 + e - 53) (-1074) - e) with 0 by lia.
    cbn [Z.ltb Z.compare]. repeat split; lia.
Qed.

(** Rounding a quotient of at least 53 digits: the result is finite when
    the exponent stays in range, and its floor is that of the mantissa cut
    to 53 digits, or of the next one. *)
Lemma binary_round_aux_finite s q e l :
  0 < q -> 53 <= Zdigits2 q -> -1074 <= e -> e + (Zdigits2 q - 53) <= 970 ->
  exists m' e' m2,
    binary_round_aux prec emax s q e l = S754_finite s m' e' /\
    Z.shiftl (Z.pos m') e' = Z.shiftl m2 (e + (Zdigits2 q - 53)) /\
    (m2 = q / 2 ^ (Zdigits2 q - 53) \/ m2 = q / 2 ^ (Zdigits2 q - 53) + 1).
Proof.
  intros Hq Hd He Hmax.
  destruct (binary_round_aux_shift s q e l ltac:(lia)) as (m2 & Hm2 & ->).
  destruct (shift_normal q e Hq Hd He) as [Hs Hm1].
  rewrite Hs in *. cbn [fst snd] in *.
  set (m1 := q / 2 ^ (Zdigits2 q - 53)) in *.
  assert (Hb : 2 ^ 52 <= m2 <= 2 ^ 53) by (clearbody m1; lia).
  destruct (shift_rounded m2 (e + (Zdigits2 q - 53)) Hb ltac:(lia))
    as (m' & e' & -> & He' & Hfl).
  exists m', e', m2. cbn [fst snd rounded].
  replace (e' <=? emax - prec) with true
    by (symmetry; apply Z.leb_le; unfold emax, prec; lia).
  auto.
Qed.

Lemma Zdigits2_ge m k : 0 <= k -> 2 ^ k <= m -> k + 1 <= Zdigits2 m.
Proof.
  intros Hk Hm. pose proof (pow2_pos k Hk).
  destruct (Zdigits2_spec m ltac:(lia)) as (H1 & _ & Hhi).
  destruct (Z_lt_le_dec k (Zdigits2 m)) as [H'|H']; [lia|].
  assert (2 ^ Zdigits2 m <= 2 ^ k) by (apply Z.pow_le_mono_r; lia). lia.
Qed.

Lemma SFdiv_core_binary_60 a :
  0 < a ->
  exists l, SFdiv_core_binary prec emax a 0 60 0
            = (a * 2 ^ scale a / 60, - scale a, l).
Proof.
  intros Ha. destruct (Zdigits2_spec a Ha) as (Hd & _).
  unfold SFdiv_core_binary, scale. rewrite fexp_eq.
  replace (Zdigits2 60) with 6 by reflexivity.
  set (d := Zdigits2 a) in *.
  replace (Z.min (Z.max (d + 0 - (6 + 0) - 53) (-1074)) (0 - 0))
    with (- Z.max (59 - d) 0) by lia.
  replace (0 - 0 - - Z.max (59 - d) 0) with (Z.max (59 - d) 0) by lia.
  set (s := Z.max (59 - d) 0).
  assert (Hs : 0 <= s) by lia.
  set (m' := match s with Z0 => a | Zpos _ => Z.shiftl a s | Zneg _ => 0 end).
  assert (Hm' : m' = a * 2 ^ s).
  { subst m'. destruct s as [|p|p] eqn:E; [now rewrite Z.mul_1_r | | lia].
    now rewrite Z.shiftl_mul_pow2. }
  rewrite <- Hm'. unfold Z.div.
  destruct (Z.div_eucl m' 60) as [q r]. eexists. reflexivity.
Qed.

Lemma quotient_digits a :
  0 < a ->
  let q := a * 2 ^ scale a / 60 in
  0 < q /\ 53 <= Zdigits2 q /\ Zdigits2 q - scale a <= Zdigits2 a - 5.
Proof.
  intros Ha q. subst q. unfold scale.
  destruct (Zdigits2_spec a Ha) as (Hd & Hlo & Hhi).
  set (d := Zdigits2 a) in *.
  destruct (Z_le_gt_dec d 59) as [Hc|Hc].
  - replace (Z.max (59 - d) 0) with (59 - d) by lia.
    set (q := a * 2 ^ (59 - d) / 60).
    assert (Hq : 2 ^ 52 <= q < 2 ^ 54).
    { subst q. pose proof (pow2_pos (59 - d) ltac:(lia)) as Hp.
      assert (H58 : 2 ^ 58 = 2 ^ (d - 1) * 2 ^ (59 - d))
        by (rewrite <- Z.pow_add_r by lia; f_equal; lia).
      assert (H59 : 2 ^ 59 = 2 ^ d * 2 ^ (59 - d))
        by (rewrite <- Z.pow_add_r by lia; f_equal; lia).
      split.
      - apply Z.div_le_lower_bound; [lia|].
        apply Z.le_trans with (2 ^ 58); [apply Z.leb_le; reflexivity|].
        rewrite H58. apply Z.mul_le_mono_nonneg_r; lia.
      - apply Z.div_lt_upper_bound; [lia|].
        apply Z.lt_trans with (2 ^ 59); [|apply Z.ltb_lt; reflexivity].
        rewrite H59. apply Z.mul_lt_mono_pos_r; lia. }
    split; [lia|]. split.
    + apply (Zdigits2_ge q 52); lia.
    + pose proof (Zdigits2_le q 54 ltac:(lia) ltac:(lia) ltac:(lia)). lia.
  - replace (Z.max (59 - d) 0) with 0 by lia.
    set (q := a * 2 ^ 0 / 60).
    assert (Hq : 2 ^ (d - 7) <= q < 2 ^ (d - 5)).
    { subst q. rewrite Z.mul_1_r.
      assert (H1 : 2 ^ (d - 1) = 64 * 2 ^ (d - 7))
        by (change 64 with (2 ^ 6); rewrite <- Z.pow_add_r by lia; f_equal; lia).
      assert (H2 : 2 ^ d = 32 * 2 ^ (d - 5))
        by (change 32 with (2 ^ 5); rewrite <- Z.pow_add_r by lia; f_equal; lia).
      pose proof (pow2_pos (d - 7) ltac:(lia)).
      pose proof (pow2_pos (d - 5) ltac:(lia)).
      split.
      - apply Z.div_le_lower_bound; [lia|]. forget_pow. lia.
      - apply Z.div_lt_upper_bound; [lia|]. forget_pow. lia. }
    pose proof (pow2_pos (d - 7) ltac:(lia)).
    split; [lia|]. split.
    + pose proof (Zdigits2_ge q (d - 7) ltac:(lia) ltac:(lia)). lia.
    + pose proof (Zdigits2_le q (d - 5) ltac:(lia) ltac:(lia) ltac:(lia)). lia.
Qed.

(** The floor of the rounded quotient, clamped, is the clamped floor
    division. *)
Lemma floor_exact a m2 s n :
  0 < a -> 0 <= n <= 1 -> 8 <= s ->
  m2 = a * 2 ^ s / 60 / 2 ^ n \/ m2 = a * 2 ^ s / 60 / 2 ^ n + 1 ->
  m2 / 2 ^ (s - n) = a / 60.
Proof.
  intros Ha Hn Hs Hm2.
  pose proof (pow2_split s n ltac:(lia)) as Hsplit.
  pose proof (pow2_pos (s - n) ltac:(lia)) as HP.
  assert (HP' : 2 ^ 7 <= 2 ^ (s - n)) by (apply Z.pow_le_mono_r; lia).
  change (2 ^ 7) with 128 in HP'.
  assert (HN : 2 ^ n = 1 \/ 2 ^ n = 2).
  { destruct (Z.eq_dec n 0) as [->|]; [now left|].
    replace n with 1 by lia. now right. }
  rewrite Hsplit in Hm2.
  set (P := 2 ^ (s - n)) in *. set (N := 2 ^ n) in *. clearbody P N.
  pose proof (Z.div_mod a 60 ltac:(lia)) as Hk.
  pose proof (Z.mod_pos_bound a 60 ltac:(lia)) as Hr.
  pose proof (Z.div_mod (a * (P * N)) 60 ltac:(lia)) as Hqd.
  pose proof (Z.mod_pos_bound (a * (P * N)) 60 ltac:(lia)) as Hqr.
  set (q := a * (P * N) / 60) in *.
  pose proof (Z.div_mod q N ltac:(lia)) as Hmd.
  pose proof (Z.mod_pos_bound q N ltac:(lia)) as Hmr.
  set (m1 := q / N) in *.
  set (k := a / 60) in *. set (r := a mod 60) in *.
  set (r1 := (a * (P * N)) mod 60) in *. set (r2 := q mod N) in *.
  clearbody k r r1 r2 m1 q.
  assert (E : 60 * (P * k) * N + (r * P) * N = 60 * q + r1)
    by (rewrite <- Hqd, Hk; ring).
  assert (HrP : 0 <= r * P <= 59 * P) by nia.
  symmetry. apply Z.div_unique with (m2 - P * k); [left | lia].
  generalize dependent (P * k). generalize dependent (r * P).
  intros Y HY X E. destruct HN as [HN|HN]; rewrite HN in *; lia.
Qed.

Lemma floor_of_rounded_quotient a m2 :
  0 < a ->
  let q := a * 2 ^ scale a / 60 in
  let n := Zdigits2 q - 53 in
  m2 = q / 2 ^ n \/ m2 = q / 2 ^ n + 1 ->
  clamp (Z.shiftl m2 (- scale a + n)) = clamp (a / 60).
Proof.
  intros Ha q n Hm2.
  destruct (quotient_digits a Ha) as (Hq & Hd & Hd'). fold q in Hq, Hd, Hd'.
  destruct (shift_normal q 0 Hq Hd ltac:(lia)) as [_ Hm1]. fold n in Hm1.
  destruct (Zdigits2_spec a Ha) as (Hda & Hlo & Hhi).
  assert (Hn : 0 <= n) by (unfold n; lia).
  destruct (Z_le_gt_dec (Zdigits2 a) 51) as [Hc|Hc].
  - (* the quotient is below 2^51 / 60: the floor is exact *)
    f_equal.
    assert (Hs : scale a = 59 - Zdigits2 a) by (unfold scale; lia).
    assert (Hn' : n <= 1) by (unfold n; lia).
    replace (- scale a + n) with (- (scale a - n)) by lia.
    rewrite Z.shiftl_opp_r, Z.shiftr_div_pow2 by lia.
    apply floor_exact; [assumption | lia | lia | exact Hm2].
  - (* both are beyond the cap *)
    assert (Hk : 129600 <= a / 60).
    { apply Z.div_le_lower_bound; [lia|].
      apply Z.le_trans with (2 ^ 51); [apply Z.leb_le; reflexivity|].
      apply Z.le_trans with (2 ^ (Zdigits2 a - 1)); [|assumption].
      apply Z.pow_le_mono_r; lia. }
    assert (Hs : 0 <= scale a <= 7) by (unfold scale; lia).
    assert (HF : 129600 <= Z.shiftl m2 (- scale a + n)).
    { set (m1 := q / 2 ^ n) in *.
      assert (Hm : 2 ^ 52 <= m2) by (clearbody m1; lia).
      assert (H52 : 128 * 129600 <= 2 ^ 52) by (apply Z.leb_le; reflexivity).
      destruct (Z_le_gt_dec 0 (- scale a + n)) as [Hp|Hp].
      - rewrite Z.shiftl_mul_pow2 by assumption.
        pose proof (pow2_pos (- scale a + n) Hp).
        clearbody m1 q. forget_pow. nia.
      - replace (- scale a + n) with (- (scale a - n)) by lia.
        rewrite Z.shiftl_opp_r, Z.shiftr_div_pow2 by lia.
        pose proof (pow2_pos (scale a - n) ltac:(lia)).
        assert (2 ^ (scale a - n) <= 2 ^ 7) by (apply Z.pow_le_mono_r; lia).
        change (2 ^ 7) with 128 in *.
        apply Z.div_le_lower_bound; [lia|].
        clearbody m1 q. forget_pow. nia. }
    unfold clamp. lia.
Qed.

(** [z / 60] on an [int] below [2 ^ 1028] in magnitude does not overflow,
    and the floor of the result, clamped, is the clamped floor division. *)
Lemma long_true_divide_60 z :
  z <> 0 -> Z.abs z < 2 ^ 1028 ->
  exists m e,
    long_true_divide z 60 = inl (S754_finite (z <? 0) m e) /\
    clamp (Z.shiftl (Z.pos m) e) = clamp (Z.abs z / 60).
Proof.
  intros Hz Hb.
  assert (Ha : 0 < Z.abs z) by lia.
  destruct (SFdiv_core_binary_60 (Z.abs z) Ha) as [l Hcore].
  destruct (quotient_digits (Z.abs z) Ha) as (Hq & Hd & Hd').
  pose proof (Zdigits2_le (Z.abs z) 1028 ltac:(lia) ltac:(lia) Hb) as Hda.
  assert (Hs : 0 <= scale (Z.abs z) <= 58).
  { unfold scale. destruct (Zdigits2_spec _ Ha) as [? _]. lia. }
  destruct (binary_round_aux_finite (z <? 0) _ (- scale (Z.abs z)) l Hq Hd
              ltac:(lia) ltac:(lia)) as (m & e & m2 & Hr & Hfl & Hm2).
  exists m, e. split.
  - unfold long_true_divide. cbn [Z.ltb Z.compare]. rewrite xorb_false_r.
    change (Z.abs 60) with 60. rewrite Hcore, Hr.
    destruct z; [congruence | reflexivity | reflexivity].
  - rewrite Hfl. now apply floor_of_rounded_quotient.
Qed.

(** *** The direction of rounding *)

Lemma shr_1_r mrs : shr_r (shr_1 mrs) = Z.odd (shr_m mrs).
Proof. destruct mrs as [m r s]. destruct m as [|[p|p|]|[p|p|]]; reflexivity. Qed.

(** After [p] shifts the round bit is bit [p - 1] of the mantissa. *)
Lemma iter_pos_shr_1_r p mrs :
  0 <= shr_m mrs ->
  shr_r (iter_pos shr_1 p mrs) = Z.testbit (shr_m mrs) (Z.pos p - 1).
Proof.
  revert mrs. induction p as [p IH|p IH|]; intros mrs Hm; cbn [iter_pos].
  - rewrite IH by (apply iter_pos_shr_1_nonneg; now apply shr_1_nonneg).
    rewrite iter_pos_shr_1_div, shr_1_div2 by (try apply shr_1_nonneg; assumption).
    change 2 with (2 ^ 1) at 1.
    rewrite !Z.div_pow2_bits by lia. f_equal. lia.
  - rewrite IH by (now apply iter_pos_shr_1_nonneg).
    rewrite iter_pos_shr_1_div by assumption.
    rewrite Z.div_pow2_bits by lia. f_equal. lia.
  - rewrite shr_1_r. symmetry. apply Z.bit0_odd.
Qed.

Lemma round_nearest_even_direction mrs :
  (shr_r mrs = false ->
   round_nearest_even (shr_m mrs) (loc_of_shr_record mrs) = shr_m mrs) /\
  (shr_r mrs = true -> Z.odd (shr_m mrs) = true ->
   round_nearest_even (shr_m mrs) (loc_of_shr_record mrs) = shr_m mrs + 1).
Proof.
  destruct mrs as [m r s]. cbn [shr_r shr_m]. split.
  - intros ->. now destruct s.
  - intros -> Ho. destruct s; cbn; [reflexivity|].
    rewrite <- Z.negb_odd, Ho. reflexivity.
Qed.

(** Rounding a quotient of more than 53 digits: the mantissa cut to 53
    digits stays when the first bit cut off is 0, and goes one up when
    that bit is 1 and the mantissa is odd. *)
Lemma binary_round_aux_direction s q e l :
  0 < q -> 53 < Zdigits2 q -> -1074 <= e ->
  let n := Zdigits2 q - 53 in
  let m1 := q / 2 ^ n in
  forall m2,
    (Z.testbit q (n - 1) = false /\ m2 = m1 \/
     Z.testbit q (n - 1) = true /\ Z.odd m1 = true /\ m2 = m1 + 1) ->
    binary_round_aux prec emax s q e l =
    rounded s (fst (shift m2 (e + n))) (snd (shift m2 (e + n))).
Proof.
  intros Hq Hd He n m1 m2 Hm2.
  unfold binary_round_aux.
  assert (Hshr : shr_fexp prec emax q e l
                 = (iter_pos shr_1 (Z.to_pos n) (shr_record_of_loc q l), e + n)).
  { unfold shr_fexp, shr. rewrite fexp_eq.
    replace (Z.max (Zdigits2 q + e - 53) (-1074) - e) with n by (unfold n; lia).
    destruct n as [|p|p] eqn:En; [unfold n in *; lia | reflexivity | unfold n in *; lia]. }
  rewrite Hshr.
  set (mrs := iter_pos shr_1 (Z.to_pos n) (shr_record_of_loc q l)).
  assert (H0 : shr_m (shr_record_of_loc q l) = q) by (now destruct l as [|[]]).
  assert (Hn : 0 < n) by (unfold n; lia).
  assert (Hm : shr_m mrs = m1).
  { unfold mrs. rewrite iter_pos_shr_1_div by (rewrite H0; lia).
    rewrite H0, Z2Pos.id by assumption. reflexivity. }
  assert (Hr : shr_r mrs = Z.testbit q (n - 1)).
  { unfold mrs. rewrite iter_pos_shr_1_r by (rewrite H0; lia).
    rewrite H0, Z2Pos.id by assumption. reflexivity. }
  assert (Hround : round_nearest_even (shr_m mrs) (loc_of_shr_record mrs) = m2).
  { destruct (round_nearest_even_direction mrs) as [Hdown Hup].
    destruct Hm2 as [[Hb ->]|(Hb & Ho & ->)].
    - rewrite Hdown by congruence. exact Hm.
    - rewrite Hup by congruence. now rewrite Hm. }
  rewrite Hround.
  assert (Hm2' : 0 <= m2).
  { assert (0 <= m1) by (apply Z.div_pos; [lia | apply pow2_pos; lia]).
    destruct Hm2 as [[_ ->]|(_ & _ & ->)]; lia. }
  pose proof (shr_fexp_shift m2 (e + n) loc_Exact Hm2') as H2.
  destruct (shr_fexp prec emax m2 (e + n) loc_Exact) as [mrs'' e''].
  cbn [fst snd] in H2. rewrite <- H2. reflexivity.
Qed.

(** A quotient of 1024 digits is rounded to a double below the midpoint
    between the largest double and [2 ^ 1024], and to an infinity from
    there on. *)
Lemma binary_round_aux_1024 s q l :
  2 ^ 1023 <= q < 2 ^ 1024 ->
  if q <? 2 ^ 1024 - 2 ^ 970 then
    exists m, binary_round_aux prec emax s q 0 l = S754_finite s m 971 /\
              2 ^ 52 <= Z.pos m
  else binary_round_aux prec emax s q 0 l = S754_infinity s.
Proof.
  intros Hq.
  assert (Hd : Zdigits2 q = 1024) by (apply Zdigits2_unique; [exact Hq | lia]).
  assert (Hq0 : 0 < q) by (assert (0 < 2 ^ 1023) by (apply pow2_pos; lia); lia).
  pose proof (binary_round_aux_direction s q 0 l Hq0 ltac:(lia) ltac:(lia)) as Hdir.
  cbv zeta in Hdir. rewrite Hd in Hdir.
  change (1024 - 53) with 971 in Hdir. change (971 - 1) with 970 in Hdir.
  change (0 + 971) with 971 in Hdir.
  set (m1 := q / 2 ^ 971) in *.
  assert (Hm1 : 2 ^ 52 <= m1 < 2 ^ 53).
  { unfold m1. split.
    - apply Z.div_le_lower_bound; [apply pow2_pos; lia|].
      change (2 ^ 971 * 2 ^ 52) with (2 ^ 1023). lia.
    - apply Z.div_lt_upper_bound; [apply pow2_pos; lia|].
      change (2 ^ 971 * 2 ^ 53) with (2 ^ 1024). lia. }
  assert (Hbit : Z.testbit q 970 = Z.odd (q / 2 ^ 970)).
  { rewrite <- Z.bit0_odd, Z.div_pow2_bits by lia. reflexivity. }
  assert (Hhalf : q / 2 ^ 970 = 2 * m1 + (if Z.testbit q 970 then 1 else 0)).
  { rewrite Hbit. unfold m1. change (2 ^ 971) with (2 ^ 970 * 2).
    rewrite <- Z.div_div by lia.
    set (h := q / 2 ^ 970).
    rewrite (Z.div_mod h 2) at 1 by lia. rewrite Zmod_odd.
    destruct (Z.odd h); lia. }
  assert (Hfin : forall m2, 2 ^ 52 <= m2 < 2 ^ 53 ->
                   exists m, rounded s (fst (shift m2 971)) (snd (shift m2 971))
                             = S754_finite s m 971 /\ 2 ^ 52 <= Z.pos m).
  { intros m2 Hm2.
    assert (Hd2 : Zdigits2 m2 = 53) by (apply Zdigits2_unique; [exact Hm2 | lia]).
    unfold shift. rewrite Hd2. cbn [fst snd].
    destruct m2 as [|p|p]; try (exfalso; cbn in Hm2; lia).
    exists p. split; [reflexivity | lia]. }
  pose proof (Z.div_mod q (2 ^ 970) ltac:(lia)) as Hdm.
  pose proof (Z.mod_pos_bound q (2 ^ 970) ltac:(lia)) as Hmod.
  destruct (Z.ltb_spec q (2 ^ 1024 - 2 ^ 970)) as [Hlt|Hge].
  - destruct (Z.testbit q 970) eqn:Eb.
    + (* the round bit is set: the mantissa is below [2 ^ 53 - 1] *)
      assert (Hm1' : m1 < 2 ^ 53 - 1).
      { change (2 ^ 1024) with (2 ^ 970 * 2 ^ 54) in Hlt.
        set (P := 2 ^ 970) in *. clearbody P.
        set (h := q / P) in *. set (r := q mod P) in *. clearbody h r.
        change (2 ^ 54) with 18014398509481984 in Hlt.
        change (2 ^ 53) with 9007199254740992. nia. }
      destruct (Z.odd m1) eqn:Eo.
      * rewrite (Hdir (m1 + 1)) by (right; auto).
        apply Hfin. lia.
      * (* ties and above go to [m1] or [m1 + 1]: both are in range *)
        destruct (binary_round_aux_shift s q 0 l ltac:(lia)) as (m2 & Hm2 & ->).
        destruct (shift_normal q 0 Hq0 ltac:(lia) ltac:(lia)) as [Hs _].
        rewrite Hs, Hd in *. cbn [fst snd] in *.
        change (1024 - 53) with 971 in *. change (0 + 971) with 971 in *.
        fold m1 in Hm2. apply Hfin. lia.
    + rewrite (Hdir m1) by (left; auto). apply Hfin. exact Hm1.
  - assert (Hm1' : m1 = 2 ^ 53 - 1 /\ Z.testbit q 970 = true).
    { change (2 ^ 1024) with (2 ^ 970 * 2 ^ 54) in Hge, Hq.
      destruct Hq as [_ Hq].
      set (P := 2 ^ 970) in *. 
      assert (HP : 0 < P) by (apply pow2_pos; lia). clearbody P.
      set (h := q / P) in *. set (r := q mod P) in *. clearbody h r.
      change (2 ^ 54) with 18014398509481984 in *.
      change (2 ^ 53) with 9007199254740992 in *.
      destruct (Z.testbit q 970); split; try reflexivity; nia. }
    destruct Hm1' as [Em1 Eb].
    rewrite (Hdir (m1 + 1)).
    + rewrite Em1. reflexivity.
    + right. split; [exact Eb|]. split; [|reflexivity]. rewrite Em1. reflexivity.
Qed.

Lemma shift_snd_ge m e : e <= snd (shift m e).
Proof.
  unfold shift.
  destruct (Z.ltb_spec 0 (fexp prec emax (Zdigits2 m + e) - e)); cbn [snd]; lia.
Qed.

(** A quotient of more than 1024 digits is rounded to an infinity. *)
Lemma binary_round_aux_overflow s q l :
  2 ^ 1024 <= q -> binary_round_aux prec emax s q 0 l = S754_infinity s.
Proof.
  intros Hq.
  assert (Hq0 : 0 < q) by (assert (0 < 2 ^ 1024) by (apply pow2_pos; lia); lia).
  pose proof (Zdigits2_ge q 1024 ltac:(lia) Hq) as Hd.
  destruct (binary_round_aux_shift s q 0 l ltac:(lia)) as (m2 & Hm2 & ->).
  destruct (shift_normal q 0 Hq0 ltac:(lia) ltac:(lia)) as [Hs Hm1].
  rewrite Hs in *. cbn [fst snd] in *.
  set (m1 := q / 2 ^ (Zdigits2 q - 53)) in *.
  assert (Hb : 2 ^ 52 <= m2 <= 2 ^ 53) by (clearbody m1; lia).
  pose proof (shift_snd_ge m2 (0 + (Zdigits2 q - 53))) as Hge.
  destruct (shift_rounded m2 (0 + (Zdigits2 q - 53)) Hb ltac:(lia))
    as (m' & e' & E & _). rewrite E in *. cbn [fst snd rounded] in *.
  replace (e' <=? emax - prec) with false; [reflexivity|].
  symmetry. apply Z.leb_gt. unfold emax, prec. lia.
Qed.

Lemma SFdiv_core_binary_60_large a :
  2 ^ 58 <= a ->
  exists l, SFdiv_core_binary prec emax a 0 60 0 = (a / 60, 0, l).
Proof.
  intros Ha.
  assert (Ha0 : 0 < a) by (assert (0 < 2 ^ 58) by (apply pow2_pos; lia); lia).
  destruct (SFdiv_core_binary_60 a Ha0) as [l Hl]. exists l. rewrite Hl.
  pose proof (Zdigits2_ge a 58 ltac:(lia) Ha) as Hd.
  unfold scale. replace (Z.max (59 - Zdigits2 a) 0) with 0 by lia.
  now rewrite Z.mul_1_r.
Qed.

(** [z / 60] on an [int]: below [overflow_bound] in magnitude the result
    is a double whose floor, clamped, is the clamped floor division; from
    there on the division overflows. *)
Lemma long_true_divide_60_exact z :
  z <> 0 ->
  if Z.abs z <? overflow_bound then
    exists m e,
      long_true_divide z 60 = inl (S754_finite (z <? 0) m e) /\
      clamp (Z.shiftl (Z.pos m) e) = clamp (Z.abs z / 60)
  else long_true_divide z 60 = inr OverflowError.
Proof.
  intros Hz.
  destruct (Z_lt_le_dec (Z.abs z) (2 ^ 1028)) as [Hsmall|Hbig].
  { replace (Z.abs z <? overflow_bound) with true.
    - now apply long_true_divide_60.
    - symmetry. apply Z.ltb_lt. eapply Z.lt_trans; [exact Hsmall|].
      apply Z.ltb_lt. reflexivity. }
  set (a := Z.abs z) in *.
  assert (H58 : 2 ^ 58 <= a).
  { eapply Z.le_trans; [|exact Hbig]. apply Z.pow_le_mono_r; lia. }
  destruct (SFdiv_core_binary_60_large a H58) as [l Hcore].
  assert (Hdiv : forall f,
             binary_round_aux prec emax (z <? 0) (a / 60) 0 l = f ->
             long_true_divide z 60 =
             match f with S754_infinity _ => inr OverflowError | _ => inl f end).
  { intros f Hf. unfold long_true_divide. cbn [Z.ltb Z.compare].
    rewrite xorb_false_r. change (Z.abs 60) with 60. fold a.
    rewrite Hcore, Hf. destruct z; [congruence | now destruct f | now destruct f]. }
  assert (Hq : 2 ^ 1022 <= a / 60).
  { apply Z.div_le_lower_bound; [lia|].
    eapply Z.le_trans; [|exact Hbig].
    change (2 ^ 1028) with (64 * 2 ^ 1022).
    assert (0 < 2 ^ 1022) by (apply pow2_pos; lia). lia. }
  assert (Hcap : clamp (a / 60) = 129600).
  { assert (129600 <= 2 ^ 1022) by (apply Z.leb_le; reflexivity).
    unfold clamp. lia. }
  assert (Hfloor : forall m e, 2 ^ 52 <= Z.pos m -> 0 <= e ->
                     clamp (Z.shiftl (Z.pos m) e) = 129600).
  { intros m e Hm He. rewrite Z.shiftl_mul_pow2 by assumption.
    pose proof (pow2_pos e He).
    assert (129600 <= 2 ^ 52) by (apply Z.leb_le; reflexivity).
    unfold clamp. forget_pow. nia. }
  destruct (Z.ltb_spec a overflow_bound) as [Hlt|Hge].
  - assert (Hq' : a / 60 < 2 ^ 1024 - 2 ^ 970).
    { apply Z.div_lt_upper_bound; [lia|]. exact Hlt. }
    rewrite Hcap.
    destruct (Z_lt_le_dec (a / 60) (2 ^ 1023)) as [H1023|H1023].
    + assert (Hq0 : 0 < a / 60)
        by (assert (0 < 2 ^ 1022) by (apply pow2_pos; lia); lia).
      pose proof (Zdigits2_ge (a / 60) 1022 ltac:(lia) Hq) as Hd.
      pose proof (Zdigits2_le (a / 60) 1023 ltac:(lia) ltac:(lia) H1023) as Hd'.
      destruct (binary_round_aux_finite (z <? 0) (a / 60) 0 l Hq0
                  ltac:(lia) ltac:(lia) ltac:(lia))
        as (m & e & m2 & Hr & Hfl & Hm2).
      exists m, e. split; [now rewrite (Hdiv _ Hr)|].
      rewrite Hfl.
      destruct (shift_normal (a / 60) 0 Hq0 ltac:(lia) ltac:(lia)) as [_ Hm1].
      set (m1 := a / 60 / 2 ^ (Zdigits2 (a / 60) - 53)) in *.
      assert (Hm2' : 2 ^ 52 <= m2) by (clearbody m1; lia).
      destruct m2 as [|p|p]; try (exfalso; cbn in Hm2'; lia).
      apply Hfloor; [exact Hm2' | lia].
    + pose proof (binary_round_aux_1024 (z <? 0) (a / 60) l
                    ltac:(split; [exact H1023 | lia])) as Hr.
      replace (a / 60 <? 2 ^ 1024 - 2 ^ 970) with true in Hr
        by (symmetry; now apply Z.ltb_lt).
      destruct Hr as (m & Hr & Hm).
      exists m, 971. split; [now rewrite (Hdiv _ Hr)|].
      apply Hfloor; [exact Hm | lia].
  - assert (Hq' : 2 ^ 1024 - 2 ^ 970 <= a / 60).
    { apply Z.div_le_lower_bound; [lia|]. exact Hge. }
    destruct (Z_lt_le_dec (a / 60) (2 ^ 1024)) as [H1024|H1024].
    + assert (H1023 : 2 ^ 1023 <= a / 60).
      { eapply Z.le_trans; [|exact Hq']. apply Z.leb_le. reflexivity. }
      pose proof (binary_round_aux_1024 (z <? 0) (a / 60) l
                    ltac:(split; assumption)) as Hr.
      replace (a / 60 <? 2 ^ 1024 - 2 ^ 970) with false in Hr
        by (symmetry; now apply Z.ltb_ge).
      now rewrite (Hdiv _ Hr).
    + pose proof (binary_round_aux_overflow (z <? 0) (a / 60) l H1024) as Hr.
      now rewrite (Hdiv _ Hr).
Qed.

(** *** Floats *)

Lemma Zdigits2_succ m : 0 <= m -> Zdigits2 (m + 1) <= Zdigits2 m + 1.
Proof.
  intros Hm. destruct (Z.eq_dec m 0) as [->|Hne]; [cbn; lia|].
  destruct (Zdigits2_spec m ltac:(lia)) as (Hd & _ & Hhi).
  apply Zdigits2_le; [lia | lia |].
  rewrite Z.pow_add_r, Z.pow_1_r by lia. lia.
Qed.

Lemma Zdigits2_div_pow2 m n :
  0 <= m -> 0 < n -> 0 < m / 2 ^ n -> Zdigits2 (m / 2 ^ n) <= Zdigits2 m - n.
Proof.
  intros Hm Hn Hpos.
  pose proof (pow2_pos n ltac:(lia)) as Hp.
  assert (Hge : 2 ^ n <= m).
  { destruct (Z_le_gt_dec (2 ^ n) m); [assumption|].
    rewrite Z.div_small in Hpos by lia. lia. }
  pose proof (Zdigits2_ge m n ltac:(lia) Hge) as Hd.
  destruct (Zdigits2_spec m ltac:(lia)) as (_ & _ & Hhi).
  apply Zdigits2_le; [lia | lia |].
  apply Z.div_lt_upper_bound; [assumption|].
  rewrite <- Z.pow_add_r by lia. now replace (n + (Zdigits2 m - n)) with (Zdigits2 m) by lia.
Qed.

(** One shift keeps the exponent and the magnitude below their bounds. *)
Lemma shift_bound m e B :
  0 <= m -> -1074 <= B -> e <= B -> Zdigits2 m + e <= B + 53 ->
  0 <= fst (shift m e) /\ snd (shift m e) <= B /\
  Zdigits2 (fst (shift m e)) + snd (shift m e) <= B + 53.
Proof.
  intros Hm HB He Hd. unfold shift. rewrite fexp_eq.
  set (n := Z.max (Zdigits2 m + e - 53) (-1074) - e).
  destruct (Z.ltb_spec 0 n) as [Hn|Hn]; cbn [fst snd]; [|lia].
  pose proof (pow2_pos n ltac:(lia)) as Hp.
  pose proof (Z.div_pos m (2 ^ n) Hm Hp) as Hq.
  split; [assumption|]. split; [lia|].
  destruct (Z.eq_dec (m / 2 ^ n) 0) as [->|Hne]; [cbn; lia|].
  pose proof (Zdigits2_div_pow2 m n Hm Hn ltac:(lia)). lia.
Qed.

(** Rounding a quotient below [2 ^ 1023] does not overflow. *)
Lemma binary_round_aux_bounded s q e l :
  0 <= q -> e <= 970 -> Zdigits2 q + e <= 1023 ->
  forall s', binary_round_aux prec emax s q e l <> S754_infinity s'.
Proof.
  intros Hq He Hd s'.
  destruct (binary_round_aux_shift s q e l Hq) as (m2 & Hm2 & ->).
  destruct (shift_bound q e 970 Hq ltac:(lia) He ltac:(lia)) as (H1 & H2 & H3).
  set (m1 := fst (shift q e)) in *. set (e1 := snd (shift q e)) in *.
  assert (Hm2' : 0 <= m2 /\ Zdigits2 m2 <= Zdigits2 m1 + 1).
  { destruct Hm2 as [->| ->]; [lia|].
    split; [lia | now apply Zdigits2_succ]. }
  destruct (shift_bound m2 e1 971 ltac:(lia) ltac:(lia) ltac:(lia) ltac:(lia))
    as (H4 & H5 & _).
  unfold rounded. destruct (fst (shift m2 e1)); [discriminate| |discriminate].
  replace (snd (shift m2 e1) <=? emax - prec) with true; [discriminate|].
  symmetry. apply Z.leb_le. unfold emax, prec. lia.
Qed.

Lemma float_div_60 f :
  is_float f -> is_finite f = true ->
  exists q, float_div f (float_of_int 60) = inl q /\ is_finite q = true.
Proof.
  intros Hv Hf. change (float_of_int 60) with (S754_finite false 8444249301319680 (-47)).
  unfold float_div.
  destruct f as [sx|sx| |sx mx ex]; try discriminate.
  - eexists. split; reflexivity.
  - eexists. split; [reflexivity|]. cbn [SFdiv].
    set (my := 8444249301319680%positive).
    destruct (SFdiv_core_binary prec emax (Z.pos mx) ex (Z.pos my) (-47))
      as [[q e] l] eqn:Hcore.
    assert (Hb : 0 <= q /\ e <= 970 /\ Zdigits2 q + e <= 1023).
    { unfold is_float, valid_binary, bounded, canonical_mantissa in Hv.
      apply andb_prop in Hv as [Hc He]. apply Z.eqb_eq in Hc.
      apply Z.leb_le in He. rewrite fexp_eq in Hc. unfold emax, prec in He.
      change (Z.pos (digits2_pos mx)) with (Zdigits2 (Z.pos mx)) in Hc.
      destruct (Zdigits2_spec (Z.pos mx) ltac:(lia)) as (Hd1 & _ & Hhi).
      unfold SFdiv_core_binary in Hcore. rewrite fexp_eq in Hcore.
      replace (Zdigits2 (Z.pos my)) with 53 in Hcore by reflexivity.
      set (d := Zdigits2 (Z.pos mx)) in *.
      set (e' := Z.min (Z.max (d + ex - (53 + -47) - 53) (-1074)) (ex - -47)) in *.
      set (s := ex - -47 - e') in *.
      assert (Hs : 0 <= s) by lia.
      set (m' := match s with
                 | Z0 => Z.pos mx | Zpos _ => Z.shiftl (Z.pos mx) s | Zneg _ => 0
                 end) in *.
      assert (Hm' : m' = Z.pos mx * 2 ^ s).
      { subst m'. destruct s as [|p|p] eqn:E; [now rewrite Z.mul_1_r | | lia].
        now rewrite Z.shiftl_mul_pow2. }
      pose proof (pow2_pos s Hs) as Hps.
      assert (Hq : q = m' / Z.pos my).
      { unfold Z.div. destruct (Z.div_eucl m' (Z.pos my)). now injection Hcore. }
      assert (He' : e = e').
      { destruct (Z.div_eucl m' (Z.pos my)). now injection Hcore. }
      assert (Hq0 : 0 <= q) by (rewrite Hq; apply Z.div_pos; lia).
      split; [assumption|]. split; [lia|].
      destruct (Z.eq_dec q 0) as [->|Hne]; [cbn; lia|].
      assert (Hds : 52 < d + s).
      { destruct (Z_lt_le_dec 52 (d + s)) as [H|H]; [assumption|]. exfalso.
        apply Hne. rewrite Hq. apply Z.div_small. split; [lia|].
        apply Z.lt_le_trans with (2 ^ 52); [|apply Z.leb_le; reflexivity].
        apply Z.lt_le_trans with (2 ^ (d + s)); [|apply Z.pow_le_mono_r; lia].
        rewrite Hm', Z.pow_add_r by lia. apply Z.mul_lt_mono_pos_r; lia. }
      assert (Zdigits2 q <= d + s - 52); [|lia].
      apply Zdigits2_le; [lia | lia |].
      rewrite Hq. apply Z.div_lt_upper_bound; [lia|].
      apply Z.lt_le_trans with (2 ^ 52 * 2 ^ (d + s - 52));
        [|apply Z.mul_le_mono_nonneg_r;
          [apply Z.lt_le_incl, pow2_pos; lia | apply Z.leb_le; reflexivity]].
      rewrite <- Z.pow_add_r by lia.
      replace (52 + (d + s - 52)) with (d + s) by lia.
      rewrite Hm', Z.pow_add_r by lia. apply Z.mul_lt_mono_pos_r; lia. }
    destruct Hb as (Hq & He & Hd).
    pose proof (binary_round_aux_sign (xorb sx false) q e l Hq) as Hsign.
    pose proof (binary_round_aux_bounded (xorb sx false) q e l Hq He Hd) as Hinf.
    destruct (binary_round_aux prec emax (xorb sx false) q e l);
      [reflexivity | now destruct (Hinf s) | discriminate | reflexivity].
Qed.

(** *** Floats, exactly *)

Lemma loc_of_shr_record_of_loc m l :
  loc_of_shr_record (shr_record_of_loc m l) = l.
Proof. now destruct l as [|[]]. Qed.

(** Rounding a quotient of at least 53 digits: the mantissa cut to 53
    digits stays or goes one up, and it goes up only if the first bit cut
    off is 1 or, nothing being cut off, the quotient's remainder is half
    the divisor or more. *)
Lemma binary_round_aux_cases s q e l :
  0 < q -> 53 <= Zdigits2 q -> -1074 <= e ->
  let n := Zdigits2 q - 53 in
  let m1 := q / 2 ^ n in
  exists m2,
    binary_round_aux prec emax s q e l =
    rounded s (fst (shift m2 (e + n))) (snd (shift m2 (e + n))) /\
    (m2 = m1 \/
     m2 = m1 + 1 /\
     if 0 <? n then Z.testbit q (n - 1) = true
     else l = loc_Inexact Eq \/ l = loc_Inexact Gt).
Proof.
  intros Hq Hd He n m1.
  assert (Hfexp : fexp prec emax (Zdigits2 q + e) - e = n)
    by (rewrite fexp_eq; unfold n; lia).
  assert (H0 : shr_m (shr_record_of_loc q l) = q) by (now destruct l as [|[]]).
  assert (Hm1 : 0 <= m1) by (apply Z.div_pos; [lia | apply pow2_pos; unfold n; lia]).
  assert (Hfin : forall m2, 0 <= m2 ->
            (let '(mrs'', e'') := shr_fexp prec emax m2 (e + n) loc_Exact in
             match shr_m mrs'' with
             | 0 => S754_zero s
             | Z.pos m => if e'' <=? emax - prec then S754_finite s m e''
                          else S754_infinity s
             | Z.neg _ => S754_nan
             end) = rounded s (fst (shift m2 (e + n))) (snd (shift m2 (e + n)))).
  { intros m2 Hm2.
    pose proof (shr_fexp_shift m2 (e + n) loc_Exact Hm2) as H2.
    destruct (shr_fexp prec emax m2 (e + n) loc_Exact) as [mrs'' e''].
    cbn [fst snd] in H2. rewrite <- H2. reflexivity. }
  unfold binary_round_aux.
  destruct (Z.ltb_spec 0 n) as [Hn|Hn].
  - assert (Hshr : shr_fexp prec emax q e l
                   = (iter_pos shr_1 (Z.to_pos n) (shr_record_of_loc q l), e + n)).
    { unfold shr_fexp, shr. rewrite Hfexp.
      destruct n as [|p|p] eqn:En; [lia | reflexivity | lia]. }
    rewrite Hshr.
    set (mrs := iter_pos shr_1 (Z.to_pos n) (shr_record_of_loc q l)).
    assert (Hm : shr_m mrs = m1).
    { unfold mrs. rewrite iter_pos_shr_1_div by (rewrite H0; lia).
      rewrite H0, Z2Pos.id by assumption. reflexivity. }
    assert (Hr : shr_r mrs = Z.testbit q (n - 1)).
    { unfold mrs. rewrite iter_pos_shr_1_r by (rewrite H0; lia).
      rewrite H0, Z2Pos.id by assumption. reflexivity. }
    exists (round_nearest_even (shr_m mrs) (loc_of_shr_record mrs)).
    assert (Hcases : round_nearest_even (shr_m mrs) (loc_of_shr_record mrs) = m1 \/
                     round_nearest_even (shr_m mrs) (loc_of_shr_record mrs) = m1 + 1 /\
                     Z.testbit q (n - 1) = true).
    { rewrite <- Hr, <- Hm. destruct mrs as [m r sb]. cbn [shr_m shr_r].
      destruct r, sb; cbn; auto. destruct (Z.even m); auto. }
    split; [|exact Hcases].
    apply Hfin. destruct Hcases as [->|[-> _]]; lia.
  - assert (Hn0 : n = 0) by (unfold n in *; lia).
    assert (Hshr : shr_fexp prec emax q e l = (shr_record_of_loc q l, e)).
    { unfold shr_fexp, shr. rewrite Hfexp, Hn0. reflexivity. }
    rewrite Hshr, H0, loc_of_shr_record_of_loc.
    assert (Em1 : m1 = q) by (unfold m1; rewrite Hn0; apply Z.div_1_r).
    exists (round_nearest_even q l).
    assert (Hcases : round_nearest_even q l = m1 \/
                     round_nearest_even q l = m1 + 1 /\
                     (l = loc_Inexact Eq \/ l = loc_Inexact Gt)).
    { rewrite Em1. destruct l as [|[]]; cbn; auto. destruct (Z.even q); auto. }
    split; [|exact Hcases].
    replace e with (e + n) at 1 by lia.
    apply Hfin. destruct Hcases as [->|[-> _]]; lia.
Qed.

Lemma new_location_up (r : Z) :
  new_location 8444249301319680 r = loc_Inexact Eq \/
  new_location 8444249301319680 r = loc_Inexact Gt ->
  8444249301319680 <= 2 * r.
Proof.
  unfold new_location. change (Z.even 8444249301319680) with true.
  cbv iota. unfold new_location_even.
  destruct (r =? 0); [intros [H|H]; discriminate|].
  destruct (Z.compare_spec (2 * r) 8444249301319680) as [E|E|E];
    intros [H|H]; try discriminate; lia.
Qed.

(** The division of a normal float by [60.0], before rounding. *)
Lemma SFdiv_core_binary_float_60 mx ex :
  Zdigits2 (Z.pos mx) = 53 -> -1068 <= ex ->
  SFdiv_core_binary prec emax (Z.pos mx) ex 8444249301319680 (-47)
  = (Z.pos mx * 2 ^ 53 / 8444249301319680, ex - 6,
     new_location 8444249301319680 ((Z.pos mx * 2 ^ 53) mod 8444249301319680)).
Proof.
  intros Hd He. unfold SFdiv_core_binary. rewrite fexp_eq, Hd.
  replace (Zdigits2 8444249301319680) with 53 by reflexivity.
  replace (Z.min (Z.max (53 + ex - (53 + -47) - 53) (-1074)) (ex - -47))
    with (ex - 6) by lia.
  replace (ex - -47 - (ex - 6)) with 53 by lia.
  cbv iota. rewrite Z.shiftl_mul_pow2 by lia.
  unfold Z.div, Z.modulo.
  destruct (Z.div_eucl (Z.pos mx * 2 ^ 53) 8444249301319680) as [q r].
  reflexivity.
Qed.

(** The quotient of a normal mantissa by that of [60.0] has 53 or 54
    digits. *)
Lemma quotient_float_60 mx :
  Zdigits2 (Z.pos mx) = 53 ->
  let q := Z.pos mx * 2 ^ 53 / 8444249301319680 in
  2 ^ 52 <= q < 2 ^ 54 /\ 0 <= Zdigits2 q - 53 <= 1.
Proof.
  intros Hd q.
  destruct (Zdigits2_spec (Z.pos mx) ltac:(lia)) as (_ & Hlo & Hhi).
  rewrite Hd in Hlo, Hhi. change (2 ^ (53 - 1)) with (2 ^ 52) in Hlo.
  assert (Hq : 2 ^ 52 <= q < 2 ^ 54).
  { unfold q. split.
    - apply Z.div_le_lower_bound; [lia|].
      change (2 ^ 52) with 4503599627370496 in *.
      change (2 ^ 53) with 9007199254740992 in *. lia.
    - apply Z.div_lt_upper_bound; [lia|].
      change (2 ^ 54) with 18014398509481984.
      change (2 ^ 53) with 9007199254740992 in *. lia. }
  split; [exact Hq|].
  pose proof (Zdigits2_ge q 52 ltac:(lia) ltac:(lia)).
  pose proof (Zdigits2_le q 54 ltac:(lia) ltac:(lia) ltac:(lia)). lia.
Qed.

(** Rounding the quotient up never reaches the next whole minute: a float
    below a multiple of sixty is too far below it. *)
Lemma float_floor_exact mx k n q r m2 :
  0 < mx -> 1 <= k -> 0 <= n <= 1 -> 0 <= q ->
  mx * 2 ^ 53 = 8444249301319680 * q + r -> 0 <= r < 8444249301319680 ->
  (m2 = q / 2 ^ n \/
   m2 = q / 2 ^ n + 1 /\
   if 0 <? n then Z.testbit q (n - 1) = true else 8444249301319680 <= 2 * r) ->
  m2 / 2 ^ (k + 6 - n) = mx / (60 * 2 ^ k).
Proof.
  intros Hmx Hk Hn Hq HW Hr Hm2.
  pose proof (pow2_pos k ltac:(lia)) as HA.
  assert (HP : 2 ^ (k + 6 - n) * 2 ^ n = 64 * 2 ^ k).
  { rewrite <- Z.pow_add_r by lia. replace (k + 6 - n + n) with (6 + k) by lia.
    rewrite Z.pow_add_r by lia. reflexivity. }
  pose proof (pow2_pos (k + 6 - n) ltac:(lia)) as HP0.
  pose proof (Z.div_mod mx (60 * 2 ^ k) ltac:(lia)) as HF.
  pose proof (Z.mod_pos_bound mx (60 * 2 ^ k) ltac:(lia)) as HFr.
  set (F := mx / (60 * 2 ^ k)) in *. set (rho := mx mod (60 * 2 ^ k)) in *.
  assert (HF0 : 0 <= F) by (apply Z.div_pos; lia).
  change (2 ^ 53) with 9007199254740992 in HW.
  symmetry. apply Z.div_unique with (m2 - 2 ^ (k + 6 - n) * F); [left | lia].
  set (A := 2 ^ k) in *. set (P := 2 ^ (k + 6 - n)) in *.
  assert (HAF : 0 <= A * F) by nia.
  replace (60 * A * F) with (60 * (A * F)) in HF by ring.
  destruct (Z.eq_dec n 0) as [En|En].
  - (* nothing is cut off *)
    rewrite En in *. cbn [Z.ltb Z.compare] in Hm2.
    change (2 ^ 0) with 1 in *. rewrite Z.div_1_r in Hm2.
    assert (EP : P = 64 * A) by lia.
    rewrite EP. replace (64 * A * F) with (64 * (A * F)) by ring.
    clearbody F rho A P. generalize dependent (A * F). intros AF HF HAF.
    destruct Hm2 as [->|[-> Hup]]; lia.
  - assert (E1 : n = 1) by lia. rewrite E1 in *.
    cbn [Z.ltb Z.compare] in Hm2. change (1 - 1) with 0 in Hm2.
    change (2 ^ 1) with 2 in *.
    assert (EP : P = 32 * A) by lia.
    rewrite EP. replace (32 * A * F) with (32 * (A * F)) by ring.
    pose proof (Z.div_mod q 2 ltac:(lia)) as Hq2.
    pose proof (Z.mod_pos_bound q 2 ltac:(lia)) as Hq2r.
    assert (Hodd : Z.testbit q 0 = true -> q mod 2 = 1).
    { rewrite Z.bit0_odd, Zmod_odd. now intros ->. }
    set (h := q / 2) in *. set (b := q mod 2) in *.
    clearbody F rho A P h b. generalize dependent (A * F). intros AF HF HAF.
    destruct Hm2 as [->|[-> Hup]]; [lia|].
    specialize (Hodd Hup). lia.
Qed.

(** A normal float of exponent at least [-48] (a number from 16 on)
    divided by [60.0]: the result is finite; its floor is the floor of the
    exact quotient when the float has a fractional part, and is beyond
    [2 ^ 46] otherwise. *)
Lemma float_div_60_normal sx mx ex :
  Zdigits2 (Z.pos mx) = 53 -> -48 <= ex <= 971 ->
  exists m e,
    SFdiv prec emax (S754_finite sx mx ex)
          (S754_finite false 8444249301319680 (-47))
    = S754_finite sx m e /\
    (ex <= -1 -> Z.shiftl (Z.pos m) e = Z.pos mx / (60 * 2 ^ (- ex))) /\
    (0 <= ex -> 2 ^ 46 <= Z.shiftl (Z.pos m) e).
Proof.
  intros Hd He. cbn [SFdiv].
  rewrite SFdiv_core_binary_float_60 by (assumption || lia).
  rewrite xorb_false_r.
  destruct (quotient_float_60 mx Hd) as [Hq Hn].
  pose proof (Z.div_mod (Z.pos mx * 2 ^ 53) 8444249301319680 ltac:(lia)) as HW.
  pose proof (Z.mod_pos_bound (Z.pos mx * 2 ^ 53) 8444249301319680 ltac:(lia)) as Hr.
  set (q := Z.pos mx * 2 ^ 53 / 8444249301319680) in *.
  set (r := (Z.pos mx * 2 ^ 53) mod 8444249301319680) in *.
  assert (Hq0 : 0 < q) by (assert (0 < 2 ^ 52) by (apply pow2_pos; lia); lia).
  destruct (binary_round_aux_cases sx q (ex - 6) (new_location 8444249301319680 r)
              Hq0 ltac:(lia) ltac:(lia)) as (m2 & -> & Hm2).
  destruct (shift_normal q (ex - 6) Hq0 ltac:(lia) ltac:(lia)) as [_ Hm1].
  set (n := Zdigits2 q - 53) in *.
  assert (Hb : 2 ^ 52 <= m2 <= 2 ^ 53) by (destruct Hm2 as [->|[-> _]]; lia).
  destruct (shift_rounded m2 (ex - 6 + n) Hb ltac:(lia))
    as (m' & e' & E & He' & Hfl).
  exists m', e'. rewrite E. cbn [fst snd rounded].
  replace (e' <=? emax - prec) with true
    by (symmetry; apply Z.leb_le; unfold emax, prec; lia).
  split; [reflexivity|]. rewrite Hfl. split.
  - intros Hneg.
    replace (ex - 6 + n) with (- (- ex + 6 - n)) by lia.
    rewrite Z.shiftl_opp_r, Z.shiftr_div_pow2 by lia.
    apply (float_floor_exact (Z.pos mx) (- ex) n q r); try lia.
    destruct Hm2 as [->|[-> Hup]]; [now left | right].
    split; [reflexivity|].
    destruct (0 <? n); [exact Hup | now apply new_location_up].
  - intros Hpos.
    destruct (Z_le_gt_dec 0 (ex - 6 + n)) as [Hs|Hs].
    + rewrite Z.shiftl_mul_pow2 by assumption.
      pose proof (pow2_pos (ex - 6 + n) Hs) as Hp.
      assert (2 ^ 46 <= 2 ^ 52) by (apply Z.pow_le_mono_r; lia).
      assert (0 < 2 ^ 46) by (apply pow2_pos; lia).
      forget_pow. nia.
    + replace (ex - 6 + n) with (- (- ex + 6 - n)) by lia.
      rewrite Z.shiftl_opp_r, Z.shiftr_div_pow2 by lia.
      apply Z.div_le_lower_bound; [apply pow2_pos; lia|].
      assert (2 ^ (- ex + 6 - n) <= 2 ^ 6) by (apply Z.pow_le_mono_r; lia).
      pose proof (pow2_pos (- ex + 6 - n) ltac:(lia)).
      change (2 ^ 52) with (2 ^ 6 * 2 ^ 46) in Hb.
      assert (0 < 2 ^ 46) by (apply pow2_pos; lia).
      forget_pow. nia.
Qed.

(** The quotient of a float by [60.0] before rounding, in size. *)
Lemma SFdiv_core_binary_float_60_bound mx ex q e l :
  bounded prec emax mx ex = true ->
  SFdiv_core_binary prec emax (Z.pos mx) ex 8444249301319680 (-47) = (q, e, l) ->
  0 <= q /\
  e <= Z.max (Zdigits2 (Z.pos mx) + ex - 59) (-1074) /\
  Zdigits2 q + e <= Z.max (Zdigits2 (Z.pos mx) + ex - 5) e.
Proof.
  intros Hv Hcore. set (my := 8444249301319680%positive) in *.
  unfold bounded, canonical_mantissa in Hv.
  apply andb_prop in Hv as [Hc He]. apply Z.eqb_eq in Hc.
  apply Z.leb_le in He. rewrite fexp_eq in Hc. unfold emax, prec in He.
  change (Z.pos (digits2_pos mx)) with (Zdigits2 (Z.pos mx)) in Hc.
  destruct (Zdigits2_spec (Z.pos mx) ltac:(lia)) as (Hd1 & _ & Hhi).
  unfold SFdiv_core_binary in Hcore. rewrite fexp_eq in Hcore.
  replace (Zdigits2 (Z.pos my)) with 53 in Hcore by reflexivity.
  set (d := Zdigits2 (Z.pos mx)) in *.
  set (e' := Z.min (Z.max (d + ex - (53 + -47) - 53) (-1074)) (ex - -47)) in *.
  set (s := ex - -47 - e') in *.
  assert (Hs : 0 <= s) by lia.
  set (m' := match s with
             | Z0 => Z.pos mx | Zpos _ => Z.shiftl (Z.pos mx) s | Zneg _ => 0
             end) in *.
  assert (Hm' : m' = Z.pos mx * 2 ^ s).
  { subst m'. destruct s as [|p|p] eqn:E; [now rewrite Z.mul_1_r | | lia].
    now rewrite Z.shiftl_mul_pow2. }
  pose proof (pow2_pos s Hs) as Hps.
  assert (Hq : q = m' / Z.pos my).
  { unfold Z.div. destruct (Z.div_eucl m' (Z.pos my)). now injection Hcore. }
  assert (He' : e = e').
  { destruct (Z.div_eucl m' (Z.pos my)). now injection Hcore. }
  assert (Hq0 : 0 <= q) by (rewrite Hq; apply Z.div_pos; lia).
  split; [assumption|]. split; [lia|].
  destruct (Z.eq_dec q 0) as [->|Hne]; [cbn; lia|].
  assert (Hds : 52 < d + s).
  { destruct (Z_lt_le_dec 52 (d + s)) as [H|H]; [assumption|]. exfalso.
    apply Hne. rewrite Hq. apply Z.div_small. split; [lia|].
    apply Z.lt_le_trans with (2 ^ 52); [|apply Z.leb_le; reflexivity].
    apply Z.lt_le_trans with (2 ^ (d + s)); [|apply Z.pow_le_mono_r; lia].
    rewrite Hm', Z.pow_add_r by lia. apply Z.mul_lt_mono_pos_r; lia. }
  assert (Zdigits2 q <= d + s - 52); [|lia].
  apply Zdigits2_le; [lia | lia |].
  rewrite Hq. apply Z.div_lt_upper_bound; [lia|].
  apply Z.lt_le_trans with (2 ^ 52 * 2 ^ (d + s - 52));
    [|apply Z.mul_le_mono_nonneg_r;
      [apply Z.lt_le_incl, pow2_pos; lia | apply Z.leb_le; reflexivity]].
  rewrite <- Z.pow_add_r by lia.
  replace (52 + (d + s - 52)) with (d + s) by lia.
  rewrite Hm', Z.pow_add_r by lia. apply Z.mul_lt_mono_pos_r; lia.
Qed.

(** A float below 16 divided by [60.0]: the floor of the result is 0. *)
Lemma float_div_60_tiny sx mx ex :
  bounded prec emax mx ex = true -> Zdigits2 (Z.pos mx) + ex <= 4 ->
  SFdiv prec emax (S754_finite sx mx ex)
        (S754_finite false 8444249301319680 (-47)) = S754_zero sx \/
  exists m e,
    SFdiv prec emax (S754_finite sx mx ex)
          (S754_finite false 8444249301319680 (-47)) = S754_finite sx m e /\
    e < 0 /\ Z.pos m < 2 ^ (- e).
Proof.
  intros Hv HD. cbn [SFdiv]. rewrite xorb_false_r.
  destruct (SFdiv_core_binary prec emax (Z.pos mx) ex 8444249301319680 (-47))
    as [[q e] l] eqn:Hcore.
  destruct (SFdiv_core_binary_float_60_bound mx ex q e l Hv Hcore)
    as (Hq & He & Hd).
  assert (He1 : -1074 <= Z.max (Zdigits2 (Z.pos mx) + ex - 59) (-1074) <= -55) by lia.
  destruct (binary_round_aux_shift sx q e l Hq) as (m2 & Hm2 & ->).
  destruct (shift_bound q e (-54) Hq ltac:(lia) ltac:(lia) ltac:(lia))
    as (H1 & H2 & H3).
  set (m1 := fst (shift q e)) in *. set (e1 := snd (shift q e)) in *.
  assert (Hm2' : 0 <= m2 /\ Zdigits2 m2 <= Zdigits2 m1 + 1).
  { destruct Hm2 as [->| ->]; [lia|].
    split; [lia | now apply Zdigits2_succ]. }
  destruct (shift_bound m2 e1 (-53) ltac:(lia) ltac:(lia) ltac:(lia) ltac:(lia))
    as (H4 & H5 & H6).
  unfold rounded.
  destruct (fst (shift m2 e1)) as [|m3|m3] eqn:E3; [now left | | lia].
  right. exists m3, (snd (shift m2 e1)).
  replace (snd (shift m2 e1) <=? emax - prec) with true
    by (symmetry; apply Z.leb_le; unfold emax, prec; lia).
  split; [reflexivity|]. split; [lia|].
  destruct (Zdigits2_spec (Z.pos m3) ltac:(lia)) as (_ & _ & Hhi).
  eapply Z.lt_le_trans; [exact Hhi|]. apply Z.pow_le_mono_r; lia.
Qed.

Lemma clamp_negative n : n < 0 -> clamp n = 0.
Proof. unfold clamp. lia. Qed.

Lemma exact_floor_div_negative m e : exact_floor_div true m e 60 < 0.
Proof.
  unfold exact_floor_div. cbn [cond_Zopp].
  destruct (Z.leb_spec 0 e) as [He|He].
  - pose proof (pow2_pos e He). apply Z.div_lt_upper_bound; [lia | nia].
  - pose proof (pow2_pos (- e) ltac:(lia)).
    apply Z.div_lt_upper_bound; lia.
Qed.

(** [math.floor (x / 60)] on a finite float [x], clamped, is the clamped
    floor of the exact quotient. *)
Lemma float_floor_60 sx mx ex :
  bounded prec emax mx ex = true ->
  exists q n,
    float_div (S754_finite sx mx ex) (float_of_int 60) = inl q /\
    math_floor q = inl n /\
    clamp n = clamp (exact_floor_div sx mx ex 60).
Proof.
  intros Hv.
  change (float_of_int 60) with (S754_finite false 8444249301319680 (-47)).
  unfold float_div.
  pose proof Hv as Hv'. unfold bounded, canonical_mantissa in Hv'.
  apply andb_prop in Hv' as [Hc He]. apply Z.eqb_eq in Hc.
  apply Z.leb_le in He. rewrite fexp_eq in Hc. unfold emax, prec in He.
  change (Z.pos (digits2_pos mx)) with (Zdigits2 (Z.pos mx)) in Hc.
  destruct (Zdigits2_spec (Z.pos mx) ltac:(lia)) as (Hd1 & Hlo & Hhi).
  assert (Hneg : forall m e,
             clamp (Z.shiftl (cond_Zopp true (Z.pos m)) e)
             = clamp (exact_floor_div true mx ex 60)).
  { intros m e. rewrite !clamp_negative; [reflexivity | | ].
    - apply exact_floor_div_negative.
    - apply Z.shiftl_neg. cbn. lia. }
  destruct (Z_le_gt_dec (Zdigits2 (Z.pos mx) + ex) 4) as [HD|HD].
  - (* below 16 *)
    assert (Hex : ex < 0) by lia.
    assert (Hzero : sx = false -> exact_floor_div sx mx ex 60 = 0).
    { intros ->. unfold exact_floor_div. cbn [cond_Zopp].
      replace (0 <=? ex) with false by (symmetry; apply Z.leb_gt; lia).
      apply Z.div_small. split; [lia|].
      eapply Z.lt_le_trans; [exact Hhi|].
      apply Z.le_trans with (2 ^ (4 + - ex)); [apply Z.pow_le_mono_r; lia|].
      rewrite Z.pow_add_r by lia. change (2 ^ 4) with 16.
      pose proof (pow2_pos (- ex) ltac:(lia)). forget_pow. lia. }
    destruct (float_div_60_tiny sx mx ex Hv HD) as [->|(m & e & -> & He' & Hm)].
    + exists (S754_zero sx), 0. split; [reflexivity|]. split; [reflexivity|].
      destruct sx; [|now rewrite Hzero].
      symmetry. apply clamp_negative, exact_floor_div_negative.
    + eexists _, _. split; [reflexivity|]. split; [reflexivity|].
      destruct sx; [apply Hneg|]. rewrite Hzero by reflexivity.
      cbn [cond_Zopp]. f_equal.
      replace e with (- - e) by lia.
      rewrite Z.shiftl_opp_r, Z.shiftr_div_pow2 by lia.
      apply Z.div_small. lia.
  - (* from 16 on: a normal float *)
    assert (Hd : Zdigits2 (Z.pos mx) = 53) by lia.
    destruct (float_div_60_normal sx mx ex Hd ltac:(lia))
      as (m & e & -> & Hfrac & Hint).
    eexists _, _. split; [reflexivity|]. split; [reflexivity|].
    destruct sx; [apply Hneg|]. cbn [cond_Zopp]. unfold exact_floor_div.
    cbn [cond_Zopp].
    destruct (Z.leb_spec 0 ex) as [Hpos|Hfr].
    + specialize (Hint Hpos).
      assert (H46 : 129600 <= 2 ^ 46) by (apply Z.leb_le; reflexivity).
      assert (Hexact : 129600 <= Z.pos mx * 2 ^ ex / 60).
      { apply Z.div_le_lower_bound; [lia|].
        rewrite Hd in Hlo. change (2 ^ (53 - 1)) with (2 ^ 52) in Hlo.
        assert (60 * 129600 <= 2 ^ 52) by (apply Z.leb_le; reflexivity).
        pose proof (pow2_pos ex Hpos). forget_pow. nia. }
      unfold clamp. lia.
    + now rewrite Hfrac by lia.
Qed.

(** *** The normaliser, case by case *)

Lemma parse_follower_duration_cases parse s :
  parse_follower_duration parse s =
  if (s =? "")%string then ([], inl None)
  else match parse s with
       | None => ([LogError ("Failed to parse time from " ++ s)%string], inl None)
       | Some duration_s =>
           match true_divide duration_s 60 with
           | inr e => ([], inr e)
           | inl quotient =>
               match math_floor quotient with
               | inr e => ([], inr e)
               | inl floored =>
                   ([], inl (Some (Z.min (Z.max floored 0) 129600)))
               end
           end
       end.
Proof.
  unfold parse_follower_duration.
  destruct (s =? "")%string; [reflexivity|].
  destruct (parse s) as [n|]; [|reflexivity].
  unfold lift, bind.
  destruct (true_divide n 60) as [q|e]; [|reflexivity].
  destruct (math_floor q) as [fl|e]; reflexivity.
Qed.

(** The normaliser calls neither the API nor the bot. *)
Lemma parse_follower_duration_silent parse s :
  api_calls (fst (parse_follower_duration parse s)) = [] /\
  notices (fst (parse_follower_duration parse s)) = [].
Proof.
  rewrite parse_follower_duration_cases.
  destruct (s =? "")%string; [now split|].
  destruct (parse s) as [n|]; [|now split].
  destruct (true_divide n 60) as [q|e]; [|now split].
  destruct (math_floor q) as [fl|e]; now split.
Qed.

(** *** What the normaliser returns *)

Lemma clamp_range n : 0 <= clamp n <= 129600.
Proof. unfold clamp. lia. Qed.

(** Whenever the normaliser returns a duration, it is within bounds. *)
Lemma parse_follower_duration_range parse s tr v :
  parse_follower_duration parse s = (tr, inl (Some v)) -> 0 <= v <= 129600.
Proof.
  rewrite parse_follower_duration_cases.
  destruct (s =? "")%string; [discriminate|].
  destruct (parse s) as [n|]; [|discriminate].
  destruct (true_divide n 60) as [q|e]; [|discriminate].
  destruct (math_floor q) as [fl|e]; [|discriminate].
  intros [= _ <-]. apply clamp_range.
Qed.

(** On a text parsed to an [int], the normaliser returns a duration within
    bounds or raises [OverflowError]; nothing is logged. *)
Lemma parse_follower_duration_int parse s z :
  s <> "" -> parse s = Some (PyInt z) ->
  (exists n, parse_follower_duration parse s = ([], inl (Some (clamp n))) /\
             (if z <? 0 then n <= 0 else 0 <= n)) \/
  parse_follower_duration parse s = ([], inr OverflowError).
Proof.
  intros Hs Hz. rewrite parse_follower_duration_cases, Hz.
  apply String.eqb_neq in Hs. rewrite Hs. cbn [true_divide].
  pose proof (long_true_divide_sign z 60 ltac:(discriminate)) as Hd.
  destruct (long_true_divide z 60) as [f|e]; [|right; now rewrite Hd].
  destruct Hd as [Hsign Hinf]. cbn [Z.ltb Z.compare] in Hsign.
  rewrite xorb_false_r in Hsign.
  destruct (math_floor_sign f _ Hsign Hinf) as (n & -> & Hn).
  left. exists n. split; [reflexivity | exact Hn].
Qed.

(** C1: the bound is broken by an [OverflowError].  A text parsed to the
    [int] 10^400 (or to a float infinity) makes [duration_s / 60] or
    [math.floor] raise, and the normaliser returns neither [None] nor a
    duration. *)
Theorem huge_duration_overflows parse s :
  s <> "" ->
  parse s = Some (PyInt (10 ^ 400)) \/
  parse s = Some (PyFloat (S754_infinity false)) ->
  parse_follower_duration parse s = ([], inr OverflowError).
Proof.
  intros Hs Hp. rewrite parse_follower_duration_cases.
  apply String.eqb_neq in Hs. rewrite Hs.
  destruct Hp as [-> | ->]; vm_compute; reflexivity.
Qed.

Lemma huge_duration_overflows_witness :
  Timeparse.parse huge_duration = Some (PyInt (10 ^ 400)) /\
  parse_follower_duration Timeparse.parse huge_duration = ([], inr OverflowError).
Proof.
  assert (H : Timeparse.parse huge_duration = Some (PyInt (10 ^ 400)))
    by (vm_compute; reflexivity).
  split; [exact H|].
  apply huge_duration_overflows; [discriminate | left; exact H].
Defined.

(** C7: the empty text is absent without a log record; a text the parser
    cannot parse is absent too, and the failure is logged; neither raises. *)
Theorem unparsable_is_absent parse :
  parse_follower_duration parse "" = ([], inl None) /\
  forall s, parse s = None ->
            snd (parse_follower_duration parse s) = inl None /\
            (s <> "" ->
             fst (parse_follower_duration parse s) =
             [LogError ("Failed to parse time from " ++ s)%string]).
Proof.
  split; [reflexivity|]. intros s Hs.
  rewrite parse_follower_duration_cases, Hs.
  destruct (String.eqb_spec s ""); split; try reflexivity; congruence.
Qed.

Lemma unparsable_is_absent_witness :
  Timeparse.parse "not a duration" = None /\
  parse_follower_duration Timeparse.parse "not a duration" =
  ([LogError "Failed to parse time from not a duration"], inl None).
Proof.
  destruct (unparsable_is_absent Timeparse.parse) as [_ H].
  destruct (H "not a duration" eq_refl) as [Hsnd Hfst].
  split; [reflexivity|].
  rewrite (surjective_pairing (parse_follower_duration _ _)), Hsnd, Hfst;
    [reflexivity | discriminate].
Defined.

(** C8, as amended: on "30m", "1 week" and "5 days 12 hours" the normaliser
    returns 30, 10080 and 7920; "10 years" is not a duration ("years" is no
    time selector): it is absent, with the failure logged; a duration
    beyond ninety days, such as "100 weeks", is clamped to 129600. *)
Theorem documented_durations :
  parse_follower_duration Timeparse.parse "30m" = ([], inl (Some 30)) /\
  parse_follower_duration Timeparse.parse "1 week" = ([], inl (Some 10080)) /\
  parse_follower_duration Timeparse.parse "5 days 12 hours" = ([], inl (Some 7920)) /\
  parse_follower_duration Timeparse.parse "10 years" =
  ([LogError "Failed to parse time from 10 years"], inl None) /\
  parse_follower_duration Timeparse.parse "100 weeks" = ([], inl (Some 129600)).
Proof. repeat split. Qed.

(** C8, as stated, fails: "10 years" does not come out as 129600. *)
Lemma ten_years_is_absent :
  Timeparse.parse "10 years" = None /\
  snd (parse_follower_duration Timeparse.parse "10 years") = inl None.
Proof. split; reflexivity. Qed.

(** A text parsed to a negative [int] comes out as 0, unless the division
    overflows. *)
Lemma negative_duration_is_zero parse s z :
  s <> "" -> parse s = Some (PyInt z) -> z < 0 ->
  parse_follower_duration parse s = ([], inl (Some 0)) \/
  parse_follower_duration parse s = ([], inr OverflowError).
Proof.
  intros Hs Hp Hz.
  destruct (parse_follower_duration_int parse s z Hs Hp) as [(n & -> & Hn)|H];
    [left | now right].
  apply Z.ltb_lt in Hz. rewrite Hz in Hn.
  unfold clamp. do 3 f_equal. lia.
Qed.

(** C10: the low clamp is broken by an [OverflowError].  A text parsed to
    the negative [int] -10^400 (or to the negative float infinity) makes
    the normaliser raise instead of returning 0. *)
Theorem huge_negative_duration_overflows parse s :
  s <> "" ->
  parse s = Some (PyInt (- 10 ^ 400)) \/
  parse s = Some (PyFloat (S754_infinity true)) ->
  parse_follower_duration parse s = ([], inr OverflowError).
Proof.
  intros Hs Hp. rewrite parse_follower_duration_cases.
  apply String.eqb_neq in Hs. rewrite Hs.
  destruct Hp as [-> | ->]; vm_compute; reflexivity.
Qed.

Lemma huge_negative_duration_overflows_witness :
  Timeparse.parse (String "-" huge_duration) = Some (PyInt (- 10 ^ 400)) /\
  parse_follower_duration Timeparse.parse (String "-" huge_duration) =
  ([], inr OverflowError) /\
  parse_follower_duration Timeparse.parse "-30m" = ([], inl (Some 0)).
Proof.
  assert (H : Timeparse.parse (String "-" huge_duration) = Some (PyInt (- 10 ^ 400)))
    by (vm_compute; reflexivity).
  split; [exact H|]. split; [|reflexivity].
  apply huge_negative_duration_overflows; [discriminate | left; exact H].
Defined.

(** *** One block *)

Section Blocks.

Variable parse : string -> option number.
Variable phrase : string.
Variable st : Settings.
Variable b : Bot.

Lemma arguments_silent c :
  api_calls (fst (arguments parse st b c)) = [] /\
  notices (fst (arguments parse st b c)) = [].
Proof.
  destruct c; try (now split). cbn [arguments].
  rewrite fst_bind.
  destruct (parse_follower_duration_silent parse (followersonly_time st))
    as [Ha Hn].
  rewrite api_calls_app, notices_app, Ha, Hn.
  destruct (snd (parse_follower_duration parse (followersonly_time st)));
    now split.
Qed.

Lemma arguments_call c call :
  snd (arguments parse st b c) = inl call ->
  category_of call = c /\ desired_state call = true.
Proof.
  destruct c; cbn [arguments]; try (intros [= <-]; now split).
  rewrite snd_bind.
  destruct (snd (parse_follower_duration parse (followersonly_time st)));
    [intros [= <-]; now split | discriminate].
Qed.

Lemma arguments_returns c :
  returns (parse_follower_duration parse (followersonly_time st)) ->
  returns (arguments parse st b c).
Proof.
  intros Hp. destruct c; try (eexists; reflexivity).
  cbn [arguments]. apply bind_returns; [assumption|].
  intros a. eexists; reflexivity.
Qed.

Lemma block_cases c :
  block parse phrase st b c =
  if (trigger st c =? phrase)%string then
    match arguments parse st b c with
    | (tr, inl call) => (tr ++ fst (update b call), snd (update b call))
    | (tr, inr e) => (tr, inr e)
    end
  else ([], inl tt).
Proof.
  unfold block, when, bind.
  destruct (trigger st c =? phrase)%string; [|reflexivity].
  destruct (arguments parse st b c) as [tr [call|e]]; [|reflexivity].
  now destruct (update b call).
Qed.

Lemma planned_call c call :
  planned parse phrase st b c = Some call ->
  (trigger st c =? phrase)%string = true /\
  category_of call = c /\ desired_state call = true.
Proof.
  unfold planned. destruct (trigger st c =? phrase)%string; [|discriminate].
  destruct (snd (arguments parse st b c)) as [call'|] eqn:E; [|discriminate].
  intros [= <-]. split; [reflexivity|]. now apply arguments_call.
Qed.

Lemma block_api_calls c :
  api_calls (fst (block parse phrase st b c)) =
  match planned parse phrase st b c with Some call => [call] | None => [] end.
Proof.
  rewrite block_cases. unfold planned.
  destruct (trigger st c =? phrase)%string; [|reflexivity].
  pose proof (arguments_silent c) as [Ha _].
  destruct (arguments parse st b c) as [tr [call|e]]; cbn [fst snd] in *.
  - now rewrite api_calls_app, Ha, update_api_calls.
  - assumption.
Qed.

Lemma block_notices c :
  notices (fst (block parse phrase st b c)) =
  match planned parse phrase st b c with
  | Some call => if unauthorized b call then [reauth_notice c] else []
  | None => []
  end.
Proof.
  rewrite block_cases. unfold planned.
  destruct (trigger st c =? phrase)%string; [|reflexivity].
  pose proof (arguments_silent c) as [_ Hn].
  pose proof (arguments_call c) as Hc.
  destruct (arguments parse st b c) as [tr [call|e]]; cbn [fst snd] in *.
  - rewrite notices_app, Hn, update_notices.
    now destruct (Hc call eq_refl) as [-> _].
  - assumption.
Qed.

Lemma block_result c :
  snd (block parse phrase st b c) =
  if (trigger st c =? phrase)%string then
    match snd (arguments parse st b c) with
    | inl call => snd (update b call)
    | inr e => inr e
    end
  else inl tt.
Proof.
  rewrite block_cases.
  destruct (trigger st c =? phrase)%string; [|reflexivity].
  now destruct (arguments parse st b c) as [tr [call|e]].
Qed.

Lemma block_returns c :
  only_http_errors b ->
  returns (parse_follower_duration parse (followersonly_time st)) ->
  snd (block parse phrase st b c) = inl tt.
Proof.
  intros Hb Hp. rewrite block_result.
  destruct (trigger st c =? phrase)%string; [|reflexivity].
  destruct (arguments_returns c Hp) as [call ->].
  destruct (update_returns b call Hb) as [[] ->]. reflexivity.
Qed.

Lemma block_calls_for c c' :
  calls_for c' (fst (block parse phrase st b c)) =
  match planned parse phrase st b c with
  | Some _ => if category_eqb c c' then 1%nat else 0%nat
  | None => 0%nat
  end.
Proof.
  unfold calls_for. rewrite block_api_calls.
  destruct (planned parse phrase st b c) as [call|] eqn:E; [|reflexivity].
  apply planned_call in E as (_ & Hc & _). cbn [filter]. rewrite Hc.
  now destruct (category_eqb c c').
Qed.


(** A block whose call fails with an [HTTPError] logs that error. *)
Lemma block_logs c call h :
  In call (api_calls (fst (block parse phrase st b c))) ->
  twitch_helix_api b call = Raises (HTTPError h) ->
  In (if status_code (response h) =? 401
      then unauthorized_log c h else failure_log c h)
     (error_logs (fst (block parse phrase st b c))).
Proof.
  intros Hin Hh. rewrite block_api_calls in Hin.
  destruct (planned parse phrase st b c) as [call'|] eqn:E; [|contradiction].
  destruct Hin as [->|[]].
  pose proof (planned_call _ _ E) as (Ht & Hc & _).
  unfold planned in E. rewrite block_cases. rewrite Ht in *.
  destruct (arguments parse st b c) as [tr [call'|e]]; cbn [fst snd] in *;
    [|discriminate].
  injection E as ->.
  rewrite error_logs_app, update_error_logs, Hh, Hc.
  apply in_or_app. right. now left.
Qed.


(** A block returns, unless its call raises something that is no
    [HTTPError] (the duration text being one that normalises). *)
Lemma block_outcome c :
  returns (parse_follower_duration parse (followersonly_time st)) ->
  snd (block parse phrase st b c) = inl tt \/
  exists call e,
    In call (api_calls (fst (block parse phrase st b c))) /\
    twitch_helix_api b call = Raises e /\
    (forall h, e <> HTTPError h) /\
    snd (block parse phrase st b c) = inr e.
Proof.
  intros Hp. rewrite block_cases.
  destruct (trigger st c =? phrase)%string; [|now left].
  destruct (arguments_returns c Hp) as [call Hcall].
  destruct (arguments parse st b c) as [tr [call'|e']]; cbn [snd] in Hcall;
    [injection Hcall as ->|discriminate].
  cbn [fst snd]. rewrite update_result.
  destruct (twitch_helix_api b call) as [|e] eqn:E; [now left|].
  assert (Hin : In call (api_calls (tr ++ fst (update b call)))).
  { rewrite api_calls_app, update_api_calls. apply in_or_app. right. now left. }
  destruct e as [| | |h|name]; try (now left);
    right; eexists call, _; (repeat split; [exact Hin | exact E | discriminate]).
Qed.

End Blocks.


(** *** A run of blocks *)

Section Runs.

Variable parse : string -> option number.
Variable phrase : string.
Variable st : Settings.
Variable b : Bot.

Let blk := block parse phrase st b.
Let run (cs : list category) := run_blocks (map blk cs).
Let cond (c : category) := (trigger st c =? phrase)%string.

Lemma run_fst_cons c cs :
  fst (run (c :: cs)) =
  fst (blk c) ++ match snd (blk c) with
                 | inl _ => fst (run cs)
                 | inr _ => []
                 end.
Proof. unfold run. cbn [map run_blocks]. apply fst_bind. Qed.

Lemma run_snd_cons c cs :
  snd (run (c :: cs)) =
  match snd (blk c) with inl _ => snd (run cs) | inr e => inr e end.
Proof. unfold run. cbn [map run_blocks]. apply snd_bind. Qed.

Lemma block_call_category c call :
  In call (api_calls (fst (blk c))) ->
  cond c = true /\ category_of call = c /\ desired_state call = true.
Proof.
  unfold blk. rewrite block_api_calls.
  destruct (planned parse phrase st b c) as [call'|] eqn:E; [|contradiction].
  intros [<-|[]]. now apply planned_call in E.
Qed.

Lemma run_desired_state cs :
  Forall (fun call => desired_state call = true) (api_calls (fst (run cs))).
Proof.
  induction cs as [|c cs IH]; [constructor|].
  rewrite run_fst_cons, api_calls_app. apply Forall_app. split.
  - apply Forall_forall. intros call Hin.
    now apply block_call_category in Hin.
  - destruct (snd (blk c)); [exact IH | constructor].
Qed.

(** Calls of a category come from the blocks of that category whose
    trigger matches: there are no more of them than such blocks. *)
Lemma run_calls_for_le c cs :
  (calls_for c (fst (run cs)) <=
   List.length (filter (fun c' => category_eqb c' c && cond c') cs))%nat.
Proof.
  induction cs as [|c' cs IH]; [apply le_n|].
  rewrite run_fst_cons, calls_for_app. cbn [filter].
  assert (Hb : (calls_for c (fst (blk c')) <=
                if category_eqb c' c && cond c' then 1 else 0)%nat).
  { unfold blk. rewrite block_calls_for.
    destruct (planned parse phrase st b c') as [call|] eqn:E.
    - apply planned_call in E as (Ht & _). unfold cond. rewrite Ht.
      rewrite andb_true_r. apply le_n.
    - apply Nat.le_0_l. }
  assert (Hr : (calls_for c (match snd (blk c') with
                             | inl _ => fst (run cs)
                             | inr _ => []
                             end) <=
                List.length (filter (fun c' => category_eqb c' c && cond c') cs))%nat).
  { destruct (snd (blk c')); [exact IH | apply Nat.le_0_l]. }
  destruct (category_eqb c' c && cond c'); cbn [List.length];
    exact (Nat.add_le_mono _ _ _ _ Hb Hr).
Qed.


Lemma run_logs cs call h :
  In call (api_calls (fst (run cs))) ->
  twitch_helix_api b call = Raises (HTTPError h) ->
  In (if status_code (response h) =? 401
      then unauthorized_log (category_of call) h
      else failure_log (category_of call) h)
     (error_logs (fst (run cs))).
Proof.
  intros Hin Hh. induction cs as [|c cs IH]; [contradiction|].
  rewrite run_fst_cons in *. rewrite api_calls_app in Hin.
  rewrite error_logs_app. apply in_or_app.
  apply in_app_or in Hin as [Hin|Hin].
  - left. pose proof (block_call_category _ _ Hin) as (_ & -> & _).
    unfold blk in *. now apply block_logs with (call := call).
  - right. destruct (snd (blk c)); [now apply IH | contradiction].
Qed.


Lemma run_notified cs call :
  In call (api_calls (fst (run cs))) ->
  unauthorized b call = true ->
  In (reauth_notice (category_of call)) (notices (fst (run cs))).
Proof.
  intros Hin Hu. induction cs as [|c cs IH]; [contradiction|].
  rewrite run_fst_cons in *. rewrite api_calls_app in Hin.
  rewrite notices_app. apply in_or_app.
  apply in_app_or in Hin as [Hin|Hin].
  - left. pose proof (block_call_category _ _ Hin) as (_ & Hc & _).
    unfold blk in *. rewrite block_notices. rewrite block_api_calls in Hin.
    destruct (planned parse phrase st b c) as [call'|]; [|contradiction].
    destruct Hin as [->|[]]. rewrite Hu, Hc. now left.
  - right. destruct (snd (blk c)); [now apply IH | contradiction].
Qed.

Hypothesis Hhttp : only_http_errors b.
Hypothesis Hparse :
  returns (parse_follower_duration parse (followersonly_time st)).

Lemma run_returns cs : snd (run cs) = inl true.
Proof.
  induction cs as [|c cs IH]; [reflexivity|].
  rewrite run_snd_cons. unfold blk. now rewrite block_returns.
Qed.

Lemma run_calls_for c cs :
  calls_for c (fst (run cs)) =
  List.length (filter (fun c' => category_eqb c' c && cond c') cs).
Proof.
  induction cs as [|c' cs IH]; [reflexivity|].
  rewrite run_fst_cons, calls_for_app. unfold blk at 2.
  rewrite block_returns, IH by assumption. cbn [filter].
  unfold blk. rewrite block_calls_for. unfold planned. fold (cond c').
  destruct (arguments_returns parse st b c' Hparse) as [call ->].
  destruct (cond c'), (category_eqb c' c); reflexivity.
Qed.

Lemma run_api_calls cs :
  api_calls (fst (run cs)) =
  flat_map (fun c => match planned parse phrase st b c with
                     | Some call => [call]
                     | None => []
                     end) cs.
Proof.
  induction cs as [|c cs IH]; [reflexivity|].
  rewrite run_fst_cons, api_calls_app. unfold blk at 2.
  rewrite block_returns, IH by assumption.
  unfold blk. now rewrite block_api_calls.
Qed.

(** A run returns [True], unless one of its calls raised something that is
    no [HTTPError], which then leaves the run. *)
Lemma run_outcome cs :
  snd (run cs) = inl true \/
  exists call e,
    In call (api_calls (fst (run cs))) /\
    twitch_helix_api b call = Raises e /\
    (forall h, e <> HTTPError h) /\
    snd (run cs) = inr e.
Proof.
  induction cs as [|c cs IH]; [now left|].
  rewrite run_fst_cons, run_snd_cons.
  destruct (block_outcome parse phrase st b c Hparse) as [Hb|(call & e & Hin & E & Hne & Hb)];
    fold (blk c) in *; rewrite Hb.
  - destruct IH as [IH|(call & e & Hin & E & Hne & IH)]; [now left|].
    right. exists call, e. rewrite api_calls_app.
    repeat split; try assumption. apply in_or_app. now right.
  - right. exists call, e. rewrite api_calls_app.
    repeat split; try assumption. apply in_or_app. now left.
Qed.

End Runs.

(** ** The handlers *)

Lemma on_stream_start_run parse st b :
  on_stream_start parse {| bot := Some b; settings := st |} =
  run_blocks (map (block parse ONLINE_PHRASE st b) all_categories).
Proof. now rewrite on_stream_start_dispatch. Qed.

Lemma on_stream_stop_run parse st b :
  on_stream_stop parse {| bot := Some b; settings := st |} =
  run_blocks (map (block parse OFFLINE_PHRASE st b) all_categories).
Proof. now rewrite on_stream_stop_dispatch. Qed.

(** Each category has one block. *)
Lemma one_block_per_category (cond : category -> bool) c :
  List.length (filter (fun c' => category_eqb c' c && cond c') all_categories)
  = if cond c then 1%nat else 0%nat.
Proof.
  destruct c; cbn [all_categories filter category_eqb andb];
    match goal with |- context [cond ?x] => destruct (cond x) end; reflexivity.
Qed.

Lemma dispatch_calls_for_le parse phrase st b c :
  (calls_for c (fst (dispatch parse phrase st b)) <=
   if (trigger st c =? phrase)%string then 1 else 0)%nat.
Proof.
  unfold dispatch.
  rewrite <- (one_block_per_category (fun c => (trigger st c =? phrase)%string)).
  apply run_calls_for_le.
Qed.

Lemma dispatch_calls_for parse phrase st b c :
  only_http_errors b ->
  returns (parse_follower_duration parse (followersonly_time st)) ->
  calls_for c (fst (dispatch parse phrase st b)) =
  if (trigger st c =? phrase)%string then 1%nat else 0%nat.
Proof.
  intros Hb Hp. unfold dispatch. rewrite run_calls_for by assumption.
  apply (one_block_per_category (fun c => (trigger st c =? phrase)%string)).
Qed.

(** Only a category whose trigger is the phrase gets a call, and it gets at
    most one; it gets one when nothing cuts the handler short. *)
Lemma dispatch_trigger parse phrase st b c :
  let n := calls_for c (fst (dispatch parse phrase st b)) in
  (n = 0%nat \/ n = 1%nat /\ trigger st c = phrase) /\
  (only_http_errors b ->
   returns (parse_follower_duration parse (followersonly_time st)) ->
   trigger st c = phrase -> n = 1%nat).
Proof.
  intros n. subst n. split.
  - pose proof (dispatch_calls_for_le parse phrase st b c) as Hle.
    destruct (String.eqb_spec (trigger st c) phrase) as [E|E].
    + destruct (calls_for c (fst (dispatch parse phrase st b))) as [|[|k]];
        [now left | now right | lia].
    + left. lia.
  - intros Hb Hp E. rewrite dispatch_calls_for by assumption.
    now rewrite E, String.eqb_refl.
Qed.

(** C2, as amended: with a bot at hand, a handler calls the API for a
    category only if the category's trigger is the handler's phrase ("Goes
    Online" for [on_stream_start], "Goes Offline" for [on_stream_stop]),
    and at most once; a category whose trigger is "Never" gets no call
    from either handler; and when no call raises anything but an
    [HTTPError] and the duration text normalises, every category whose
    trigger is the handler's phrase gets exactly one call. *)
Theorem trigger_matching parse st b c :
  let self := {| bot := Some b; settings := st |} in
  let started := calls_for c (fst (on_stream_start parse self)) in
  let stopped := calls_for c (fst (on_stream_stop parse self)) in
  (started = 0%nat \/ started = 1%nat /\ trigger st c = ONLINE_PHRASE) /\
  (stopped = 0%nat \/ stopped = 1%nat /\ trigger st c = OFFLINE_PHRASE) /\
  (trigger st c = NEVER_PHRASE -> started = 0%nat /\ stopped = 0%nat) /\
  (only_http_errors b ->
   returns (parse_follower_duration parse (followersonly_time st)) ->
   (trigger st c = ONLINE_PHRASE <-> started = 1%nat) /\
   (trigger st c = OFFLINE_PHRASE <-> stopped = 1%nat)).
Proof.
  intros self started stopped. subst self started stopped.
  rewrite on_stream_start_run, on_stream_stop_run.
  fold (dispatch parse ONLINE_PHRASE st b) (dispatch parse OFFLINE_PHRASE st b).
  destruct (dispatch_trigger parse ONLINE_PHRASE st b c) as [Hon Hon'].
  destruct (dispatch_trigger parse OFFLINE_PHRASE st b c) as [Hoff Hoff'].
  cbv zeta in *. split; [exact Hon|]. split; [exact Hoff|]. split.
  - intros Hnever. split.
    + destruct Hon as [H|[_ H]]; [exact H|]. rewrite H in Hnever. discriminate.
    + destruct Hoff as [H|[_ H]]; [exact H|]. rewrite H in Hnever. discriminate.
  - intros Hb Hp. split; split.
    + now apply Hon'.
    + intros E. destruct Hon as [H|[_ H]]; [congruence | exact H].
    + now apply Hoff'.
    + intros E. destruct Hoff as [H|[_ H]]; [congruence | exact H].
Qed.

Lemma rejecting_api_only_http : only_http_errors (bot_with rejecting_api).
Proof.
  intros call e. unfold bot_with, rejecting_api. cbn [twitch_helix_api].
  destruct (category_of call); intros [= <-]; eexists; reflexivity.
Qed.

Lemma trigger_matching_witness :
  only_http_errors (bot_with rejecting_api) /\
  returns (parse_follower_duration Timeparse.parse (followersonly_time scenario)) /\
  calls_for Slow
    (fst (on_stream_start Timeparse.parse (module_with rejecting_api scenario)))
  = 1%nat /\
  calls_for Slow
    (fst (on_stream_stop Timeparse.parse (module_with rejecting_api scenario)))
  = 0%nat /\
  calls_for SubOnly
    (fst (on_stream_start Timeparse.parse (module_with rejecting_api scenario)))
  = 0%nat.
Proof.
  assert (Hp : returns (parse_follower_duration Timeparse.parse
                          (followersonly_time scenario)))
    by (exists None; reflexivity).
  destruct (trigger_matching Timeparse.parse scenario (bot_with rejecting_api) Slow)
    as (_ & Hoff & _ & Hyes).
  destruct (trigger_matching Timeparse.parse scenario (bot_with rejecting_api) SubOnly)
    as (_ & _ & Hnever & _).
  destruct (Hyes rejecting_api_only_http Hp) as [[Hon _] _].
  split; [exact rejecting_api_only_http|]. split; [exact Hp|].
  split; [apply Hon; reflexivity|]. split.
  - destruct Hoff as [H|[_ H]]; [exact H | discriminate H].
  - apply Hnever. reflexivity.
Defined.

(** C2, as stated, fails: a trigger that is the handler's phrase does not
    always get its call.  With every trigger "Goes Online", the
    subscriber-only call is never made when the emote-only call raises a
    [ConnectionError]; and the follower-mode call is never made when the
    duration text is a one followed by four hundred zeros, although every
    call made returns. *)
Lemma trigger_without_call :
  let cut_short := module_with unreachable_api all_online in
  let overlong :=
    module_with (fun _ => Returns)
      (with_followersonly_time all_online huge_duration) in
  trigger (settings cut_short) SubOnly = ONLINE_PHRASE /\
  calls_for SubOnly (fst (on_stream_start Timeparse.parse cut_short)) = 0%nat /\
  trigger (settings overlong) FollowersOnly = ONLINE_PHRASE /\
  calls_for FollowersOnly (fst (on_stream_start Timeparse.parse overlong)) = 0%nat /\
  on_stream_start Timeparse.parse overlong =
  ([ApiCall (update_emote_only_mode "11148817" "82008718" "bot-token" true);
    ApiCall (update_sub_mode "11148817" "82008718" "bot-token" true);
    ApiCall (update_unique_chat_mode "11148817" "82008718" "bot-token" true);
    ApiCall (update_slow_mode "11148817" "82008718" "bot-token" true 45)],
   inr OverflowError).
Proof.
  cbv zeta. split; [reflexivity|]. split; [reflexivity|].
  split; [reflexivity|]. split; vm_compute; reflexivity.
Qed.

(** *** Failures of the API client *)

Section DispatchFailures.

Variable parse : string -> option number.
Variable phrase : string.
Variable st : Settings.
Variable b : Bot.



Lemma dispatch_recovered :
  returns (parse_follower_duration parse (followersonly_time st)) ->
  recovered b (dispatch parse phrase st b).
Proof.
  intros Hp. split.
  - intros call h Hin E. split.
    + now apply run_logs.
    + intros H401. apply run_notified; [assumption|].
      unfold unauthorized. rewrite E. now apply Z.eqb_eq.
  - destruct (run_outcome parse phrase st b Hp all_categories)
      as [H|(call & e & H)]; [now left|].
    right. now exists call, e.
Qed.

Hypothesis Hhttp : only_http_errors b.
Hypothesis Hparse :
  returns (parse_follower_duration parse (followersonly_time st)).

Lemma dispatch_returns : snd (dispatch parse phrase st b) = inl true.
Proof. now apply run_returns. Qed.

Lemma dispatch_api_calls :
  api_calls (fst (dispatch parse phrase st b)) = expected_calls parse phrase st b.
Proof. now apply run_api_calls. Qed.

End DispatchFailures.

(** The calls expected of a handler do not depend on what the API answers. *)
Lemma expected_calls_with_api parse phrase st b api :
  expected_calls parse phrase st (with_api b api) =
  expected_calls parse phrase st b.
Proof. reflexivity. Qed.

(** C3, as amended: whichever API calls fail with an [HTTPError], the
    handler returns [True], every category whose trigger is the handler's
    phrase has its call attempted exactly once, and the calls attempted are
    the same as under any other such behaviour of the API (the duration
    text being one that normalises). *)
Theorem dispatch_independence parse st b api' :
  only_http_errors b ->
  only_http_errors (with_api b api') ->
  returns (parse_follower_duration parse (followersonly_time st)) ->
  let self := {| bot := Some b; settings := st |} in
  let self' := {| bot := Some (with_api b api'); settings := st |} in
  (snd (on_stream_start parse self) = inl true /\
   (forall c, trigger st c = ONLINE_PHRASE ->
              calls_for c (fst (on_stream_start parse self)) = 1%nat) /\
   api_calls (fst (on_stream_start parse self')) =
   api_calls (fst (on_stream_start parse self))) /\
  (snd (on_stream_stop parse self) = inl true /\
   (forall c, trigger st c = OFFLINE_PHRASE ->
              calls_for c (fst (on_stream_stop parse self)) = 1%nat) /\
   api_calls (fst (on_stream_stop parse self')) =
   api_calls (fst (on_stream_stop parse self))).
Proof.
  intros Hb Hb' Hp self self'. subst self self'.
  rewrite !on_stream_start_run, !on_stream_stop_run.
  fold (dispatch parse ONLINE_PHRASE st b) (dispatch parse OFFLINE_PHRASE st b)
       (dispatch parse ONLINE_PHRASE st (with_api b api'))
       (dispatch parse OFFLINE_PHRASE st (with_api b api')).
  split; (split; [now apply run_returns|]); split.
  - intros c E. rewrite dispatch_calls_for by assumption.
    now rewrite E, String.eqb_refl.
  - now rewrite !dispatch_api_calls, expected_calls_with_api.
  - intros c E. rewrite dispatch_calls_for by assumption.
    now rewrite E, String.eqb_refl.
  - now rewrite !dispatch_api_calls, expected_calls_with_api.
Qed.

Lemma all_online_normalises :
  returns (parse_follower_duration Timeparse.parse (followersonly_time all_online)).
Proof. exists (Some 10080). reflexivity. Qed.

Lemma dispatch_independence_witness :
  snd (on_stream_start Timeparse.parse (module_with rejecting_api all_online))
  = inl true /\
  calls_for FollowersOnly
    (fst (on_stream_start Timeparse.parse (module_with rejecting_api all_online)))
  = 1%nat /\
  api_calls
    (fst (on_stream_start Timeparse.parse (module_with (fun _ => Returns) all_online)))
  = api_calls
      (fst (on_stream_start Timeparse.parse (module_with rejecting_api all_online))).
Proof.
  assert (Hb' : only_http_errors (with_api (bot_with rejecting_api) (fun _ => Returns)))
    by (intros call e; discriminate).
  destruct (dispatch_independence Timeparse.parse all_online
              (bot_with rejecting_api) (fun _ => Returns)
              rejecting_api_only_http Hb' all_online_normalises)
    as [(Hret & Hcalls & Hsame) _].
  split; [exact Hret|]. split; [apply Hcalls; reflexivity | exact Hsame].
Defined.

(** C3, as stated, fails: the emote-only call raises a [ConnectionError],
    subscriber-only mode is configured to trigger, yet its call is never
    attempted and the handler does not return. *)
Lemma dispatch_cut_short_by_connection_error :
  let self := module_with unreachable_api all_online in
  trigger all_online SubOnly = ONLINE_PHRASE /\
  calls_for EmoteOnly (fst (on_stream_start Timeparse.parse self)) = 1%nat /\
  calls_for SubOnly (fst (on_stream_start Timeparse.parse self)) = 0%nat /\
  snd (on_stream_start Timeparse.parse self) = inr (Exception "ConnectionError").
Proof. cbv zeta. repeat split. Qed.

(** C4, as amended: an [HTTPError] raised by an API call never leaves the
    handlers: it is written to the error log, and a 401 is also notified in
    chat.  An exception leaves a handler only when an API call raised one
    that is no [HTTPError]; when no call does, the handler returns [True]
    (the duration text being one that normalises). *)
Theorem http_errors_are_recovered parse st b :
  returns (parse_follower_duration parse (followersonly_time st)) ->
  let self := {| bot := Some b; settings := st |} in
  recovered b (on_stream_start parse self) /\
  recovered b (on_stream_stop parse self) /\
  (only_http_errors b ->
   snd (on_stream_start parse self) = inl true /\
   snd (on_stream_stop parse self) = inl true).
Proof.
  intros Hp self. subst self.
  rewrite on_stream_start_run, on_stream_stop_run.
  fold (dispatch parse ONLINE_PHRASE st b) (dispatch parse OFFLINE_PHRASE st b).
  split; [now apply dispatch_recovered|]. split; [now apply dispatch_recovered|].
  intros Hb. split; now apply dispatch_returns.
Qed.

Lemma http_errors_are_recovered_witness :
  on_stream_start Timeparse.parse (module_with rejecting_api scenario) =
  ([ApiCall (update_emote_only_mode "11148817" "82008718" "bot-token" true);
    LogError "Failed to update emote only mode, unauthorized: 401 Client Error: Unauthorized for url - Invalid OAuth token";
    SendMessage "Error: The bot must be re-authed in order to update emote only mode.";
    ApiCall (update_slow_mode "11148817" "82008718" "bot-token" true 45);
    LogError "Failed to update slow_mode: 500 Server Error: Internal Server Error for url - try again later"],
   inl true) /\
  recovered (bot_with rejecting_api)
    (on_stream_start Timeparse.parse (module_with rejecting_api scenario)).
Proof.
  split; [reflexivity|].
  apply (http_errors_are_recovered Timeparse.parse scenario (bot_with rejecting_api)).
  exists None. reflexivity.
Defined.

(** C4, as stated, fails: a [ConnectionError] raised by the emote-only call
    leaves [on_stream_start], and nothing is logged or notified. *)
Lemma connection_error_propagates :
  on_stream_start Timeparse.parse (module_with unreachable_api all_online) =
  ([ApiCall (update_emote_only_mode "11148817" "82008718" "bot-token" true)],
   inr (Exception "ConnectionError")).
Proof. reflexivity. Qed.




(** C6: without a bot, a handler logs one warning, calls nothing and
    returns [True]. *)
Theorem missing_bot parse st :
  let self := {| bot := None; settings := st |} in
  on_stream_start parse self =
  ([LogWarning "on_stream_start failed in DefaultChatStatesModule because bot is None"],
   inl true) /\
  on_stream_stop parse self =
  ([LogWarning "on_stream_stop failed in DefaultChatStatesModule because bot is None"],
   inl true) /\
  api_calls (fst (on_stream_start parse self)) = [] /\
  api_calls (fst (on_stream_stop parse self)) = [].
Proof. cbv zeta. repeat split. Qed.

(** C9: every call either handler makes passes [True] as the desired
    state. *)
Theorem always_enables parse self :
  Forall (fun call => desired_state call = true)
         (api_calls (fst (on_stream_start parse self))) /\
  Forall (fun call => desired_state call = true)
         (api_calls (fst (on_stream_stop parse self))).
Proof.
  rewrite on_stream_start_dispatch, on_stream_stop_dispatch.
  destruct (bot self) as [b|]; split;
    solve [apply run_desired_state | constructor].
Qed.

(** ** More on the runs of the handlers *)

(** *** The trace of a run *)

Lemma update_trace b call :
  fst (update b call) = ApiCall call :: reaction b call.
Proof.
  rewrite update_cases. unfold reaction.
  destruct (twitch_helix_api b call) as [|[| | |h|n]]; try reflexivity.
  destruct (status_code (response h) =? 401); reflexivity.
Qed.

(** The normaliser logs nothing when it raises. *)
Lemma parse_follower_duration_raises parse s e :
  snd (parse_follower_duration parse s) = inr e ->
  fst (parse_follower_duration parse s) = [].
Proof.
  rewrite parse_follower_duration_cases.
  destruct (s =? "")%string; [discriminate|].
  destruct (parse s) as [n|]; [|discriminate].
  destruct (true_divide n 60) as [q|e']; [|reflexivity].
  destruct (math_floor q) as [fl|e']; reflexivity.
Qed.

Lemma arguments_trace parse st b c :
  fst (arguments parse st b c) =
  match snd (arguments parse st b c) with
  | inl _ => prelude parse st c
  | inr _ => []
  end.
Proof.
  destruct c; try reflexivity. cbn [arguments prelude].
  rewrite fst_bind, snd_bind.
  destruct (snd (parse_follower_duration parse (followersonly_time st))) as [d|e] eqn:E.
  - cbn [ret fst snd]. apply app_nil_r.
  - rewrite (parse_follower_duration_raises _ _ _ E). reflexivity.
Qed.

Lemma block_trace parse phrase st b c :
  fst (block parse phrase st b c) =
  flat_map (events_of parse st b) (api_calls (fst (block parse phrase st b c))).
Proof.
  rewrite block_api_calls. rewrite block_cases. unfold planned.
  destruct (trigger st c =? phrase)%string; [|reflexivity].
  pose proof (arguments_trace parse st b c) as Ht.
  pose proof (arguments_call parse st b c) as Hc.
  destruct (arguments parse st b c) as [tr [call|e]]; cbn [fst snd] in *.
  - destruct (Hc call eq_refl) as [Hcat _].
    cbn [flat_map]. unfold events_of. rewrite Hcat, app_nil_r, update_trace.
    now rewrite Ht.
  - exact Ht.
Qed.

Lemma run_trace parse phrase st b cs :
  fst (run_blocks (map (block parse phrase st b) cs)) =
  flat_map (events_of parse st b)
    (api_calls (fst (run_blocks (map (block parse phrase st b) cs)))).
Proof.
  induction cs as [|c cs IH]; [reflexivity|].
  rewrite run_fst_cons, api_calls_app, flat_map_app, <- block_trace.
  f_equal. destruct (snd (block parse phrase st b c)); [exact IH | reflexivity].
Qed.

Lemma notices_events_of parse st b call :
  notices (events_of parse st b call) =
  if unauthorized b call then [reauth_notice (category_of call)] else [].
Proof.
  unfold events_of. rewrite notices_app.
  assert (Hp : notices (prelude parse st (category_of call)) = []).
  { unfold prelude. destruct (category_of call); try reflexivity.
    apply parse_follower_duration_silent. }
  rewrite Hp. cbn [app]. unfold reaction, unauthorized.
  destruct (twitch_helix_api b call) as [|[| | |h|n]]; try reflexivity.
  destruct (status_code (response h) =? 401); reflexivity.
Qed.

Lemma notices_flat_map parse st b calls :
  notices (flat_map (events_of parse st b) calls) =
  map (fun call => reauth_notice (category_of call))
      (filter (unauthorized b) calls).
Proof.
  induction calls as [|call calls IH]; [reflexivity|].
  cbn [flat_map filter]. rewrite notices_app, notices_events_of, IH.
  now destruct (unauthorized b call).
Qed.

(** *** Settings that a run does not read *)

Lemma block_frame_slow_time parse phrase st b seconds c :
  c <> Slow \/ (trigger st c =? phrase)%string = false ->
  block parse phrase (with_slow_time st seconds) b c = block parse phrase st b c.
Proof.
  intros H. unfold block.
  destruct c; try reflexivity.
  destruct H as [H|H]; [congruence|].
  cbn [trigger with_slow_time slow_option] in *. now rewrite H.
Qed.

Lemma block_frame_duration parse parse' phrase st b duration c :
  c <> FollowersOnly \/ (trigger st c =? phrase)%string = false ->
  block parse' phrase (with_followersonly_time st duration) b c
  = block parse phrase st b c.
Proof.
  intros H. unfold block.
  destruct c; try reflexivity.
  destruct H as [H|H]; [congruence|].
  cbn [trigger with_followersonly_time followersonly_option] in *. now rewrite H.
Qed.

Lemma run_frame (blk blk' : category -> M unit) cs :
  (forall c, In c cs -> blk' c = blk c) ->
  run_blocks (map blk' cs) = run_blocks (map blk cs).
Proof.
  induction cs as [|c cs IH]; intros H; [reflexivity|].
  cbn [map run_blocks]. rewrite H by now left.
  rewrite IH; [reflexivity|]. intros c' Hc'. apply H. now right.
Qed.

Lemma dispatch_frame_slow_time parse phrase st b seconds :
  slow_option st <> phrase ->
  dispatch parse phrase (with_slow_time st seconds) b = dispatch parse phrase st b.
Proof.
  intros H. apply run_frame. intros c _. apply block_frame_slow_time.
  destruct c; try (left; discriminate). right. now apply String.eqb_neq.
Qed.

Lemma dispatch_frame_duration parse parse' phrase st b duration :
  followersonly_option st <> phrase ->
  dispatch parse' phrase (with_followersonly_time st duration) b
  = dispatch parse phrase st b.
Proof.
  intros H. apply run_frame. intros c _. apply block_frame_duration.
  destruct c; try (left; discriminate). right. now apply String.eqb_neq.
Qed.

(** *** The calls, whatever happens *)

Lemma run_prefix parse phrase st b cs :
  exists rest,
    flat_map (fun c => match planned parse phrase st b c with
                       | Some call => [call]
                       | None => []
                       end) cs
    = api_calls (fst (run_blocks (map (block parse phrase st b) cs))) ++ rest /\
    (snd (run_blocks (map (block parse phrase st b) cs)) = inl true -> rest = []).
Proof.
  induction cs as [|c cs IH]; [now exists []|].
  rewrite run_fst_cons, run_snd_cons, api_calls_app, block_api_calls.
  cbn [flat_map].
  destruct (snd (block parse phrase st b c)) as [[]|e].
  - destruct IH as (rest & E & Hr). exists rest. split; [|exact Hr].
    now rewrite E, app_assoc.
  - exists (flat_map (fun c => match planned parse phrase st b c with
                                | Some call => [call]
                                | None => []
                                end) cs).
    split; [now rewrite app_nil_r | discriminate].
Qed.

Lemma arguments_well_formed parse st b c call :
  snd (arguments parse st b c) = inl call -> well_formed st b call.
Proof.
  destruct c; cbn [arguments]; try (intros [= <-]; cbn; now repeat split).
  rewrite snd_bind.
  destruct (parse_follower_duration parse (followersonly_time st))
    as [tr [[v|]|e]] eqn:E; cbn [snd ret]; try discriminate;
    intros [= <-]; cbn; repeat split;
    apply parse_follower_duration_range in E; lia.
Qed.

Lemma run_well_formed parse phrase st b cs :
  Forall (well_formed st b)
         (api_calls (fst (run_blocks (map (block parse phrase st b) cs)))).
Proof.
  induction cs as [|c cs IH]; [constructor|].
  rewrite run_fst_cons, api_calls_app. apply Forall_app. split.
  - rewrite block_api_calls. unfold planned.
    destruct (trigger st c =? phrase)%string; [|constructor].
    destruct (snd (arguments parse st b c)) as [call|e] eqn:E; [|constructor].
    constructor; [|constructor]. now apply arguments_well_formed in E.
  - destruct (snd (block parse phrase st b c)); [exact IH | constructor].
Qed.

(** *** A normaliser that raises *)

Lemma bind_assoc {A B C} (m : M A) (f : A -> M B) (g : B -> M C) :
  bind (bind m f) g = bind m (fun a => bind (f a) g).
Proof.
  destruct m as [tr [a|e]]; [|reflexivity]. unfold bind at 2 3.
  destruct (f a) as [tr' [x|e']]; cbn.
  - destruct (g x) as [tr'' r]. now rewrite app_assoc.
  - reflexivity.
Qed.

Lemma run_blocks_app (bs bs' : list (M unit)) :
  run_blocks (bs ++ bs') = bind (run_blocks bs) (fun _ => run_blocks bs').
Proof.
  induction bs as [|blk bs IH]; cbn [app run_blocks].
  - now rewrite bind_ret_l.
  - now rewrite IH, bind_assoc.
Qed.

Lemma block_raises parse phrase st b e :
  followersonly_option st = phrase ->
  snd (parse_follower_duration parse (followersonly_time st)) = inr e ->
  block parse phrase st b FollowersOnly = ([], inr e).
Proof.
  intros Ht Hp. rewrite block_cases. cbn [trigger]. rewrite Ht, String.eqb_refl.
  pose proof (arguments_trace parse st b FollowersOnly) as Htr.
  assert (Hs : snd (arguments parse st b FollowersOnly) = inr e)
    by (cbn [arguments]; now rewrite snd_bind, Hp).
  rewrite Hs in Htr.
  destruct (arguments parse st b FollowersOnly) as [tr r]. cbn [fst snd] in *.
  now subst.
Qed.

Lemma dispatch_normaliser_raises parse phrase st b e :
  only_http_errors b ->
  followersonly_option st = phrase ->
  snd (parse_follower_duration parse (followersonly_time st)) = inr e ->
  snd (dispatch parse phrase st b) = inr e /\
  forall c, calls_for c (fst (dispatch parse phrase st b)) =
            if category_eqb c FollowersOnly then 0%nat
            else if (trigger st c =? phrase)%string then 1%nat else 0%nat.
Proof.
  intros Hb Ht Hp.
  set (st' := with_followersonly_time st "").
  assert (Hret : returns (parse_follower_duration parse (followersonly_time st')))
    by now exists None.
  set (cs := [EmoteOnly; SubOnly; UniqueChat; Slow]).
  assert (Hcs : run_blocks (map (block parse phrase st b) cs)
                = run_blocks (map (block parse phrase st' b) cs)).
  { symmetry. apply run_frame. intros c Hc. apply block_frame_duration.
    left. intros ->. cbn in Hc. intuition discriminate. }
  unfold dispatch.
  change all_categories with (cs ++ [FollowersOnly]).
  rewrite map_app, run_blocks_app, Hcs. cbn [map run_blocks].
  rewrite (block_raises parse phrase st b e Ht Hp).
  rewrite fst_bind, snd_bind.
  rewrite (run_returns parse phrase st' b Hb Hret cs).
  cbn [bind fst snd]. rewrite app_nil_r.
  split; [reflexivity|]. intros c.
  rewrite (run_calls_for parse phrase st' b Hb Hret c cs).
  subst cs.
  cbn [filter trigger st' with_followersonly_time emoteonly subonly r9k slow_option].
  destruct c; cbn [category_eqb andb trigger];
    repeat match goal with
           | |- context [(?x =? phrase)%string] => destruct (x =? phrase)%string
           end; reflexivity.
Qed.

Lemma dispatch_idle parse phrase st b :
  (forall c, trigger st c <> phrase) ->
  dispatch parse phrase st b = ([], inl true).
Proof.
  intros H. unfold dispatch.
  rewrite (run_frame (fun _ => ret tt) (block parse phrase st b)).
  - reflexivity.
  - intros c _. unfold block. specialize (H c). apply String.eqb_neq in H.
    now rewrite H.
Qed.

(** ** Further properties *)

(** X1: on a text parsed to an [int], the normaliser in full: below
    [60 * (2 ^ 1024 - 2 ^ 970)] seconds in magnitude it returns the floor
    division of the seconds by 60, clamped to [0, 129600], and from there
    on it raises [OverflowError]; nothing is logged either way. *)
Theorem parse_follower_duration_on_ints parse s z :
  s <> "" -> parse s = Some (PyInt z) ->
  parse_follower_duration parse s =
  if Z.abs z <? overflow_bound then ([], inl (Some (clamp (z / 60))))
  else ([], inr OverflowError).
Proof.
  intros Hs Hp. rewrite parse_follower_duration_cases, Hp.
  apply String.eqb_neq in Hs. rewrite Hs. cbn [true_divide].
  destruct (Z.eq_dec z 0) as [->|Hz]; [reflexivity|].
  pose proof (long_true_divide_60_exact z Hz) as H.
  destruct (Z.abs z <? overflow_bound); [|now rewrite H].
  destruct H as (m & e & -> & Hfl).
  cbn [math_floor]. fold (clamp (Z.shiftl (cond_Zopp (z <? 0) (Z.pos m)) e)).
  do 3 f_equal.
  destruct (Z.ltb_spec z 0) as [Hneg|Hpos]; cbn [cond_Zopp].
  - assert (Z.shiftl (- Z.pos m) e < 0) by (apply Z.shiftl_neg; lia).
    assert (z / 60 < 0) by (apply Z.div_lt_upper_bound; lia).
    unfold clamp. lia.
  - rewrite Hfl. now rewrite Z.abs_eq by lia.
Qed.

Lemma parse_follower_duration_on_ints_witness :
  Timeparse.parse "1 w 3 d 2 h 32 m 59 s" = Some (PyInt 873179) /\
  parse_follower_duration Timeparse.parse "1 w 3 d 2 h 32 m 59 s"
  = ([], inl (Some 14552)) /\
  Timeparse.parse huge_duration = Some (PyInt (10 ^ 400)) /\
  parse_follower_duration Timeparse.parse huge_duration
  = ([], inr OverflowError).
Proof.
  assert (H : Timeparse.parse huge_duration = Some (PyInt (10 ^ 400)))
    by (vm_compute; reflexivity).
  split; [reflexivity|]. split; [|split; [exact H|]].
  - exact (parse_follower_duration_on_ints
             Timeparse.parse "1 w 3 d 2 h 32 m 59 s" 873179
             ltac:(discriminate) eq_refl).
  - rewrite (parse_follower_duration_on_ints Timeparse.parse huge_duration
               (10 ^ 400) ltac:(discriminate) H).
    reflexivity.
Defined.

(** X2: on a text parsed to a [float], the normaliser in full: on a
    finite float it returns the floor of the exact quotient of the seconds
    by 60, clamped to [0, 129600]: neither the rounding of [duration_s / 60]
    nor [math.floor] ever moves the result to another minute; on an
    infinity it raises [OverflowError] and on a NaN [ValueError]; nothing
    is logged. *)
Theorem parse_follower_duration_on_floats parse s f :
  s <> "" -> parse s = Some (PyFloat f) -> is_float f ->
  parse_follower_duration parse s =
  match f with
  | S754_zero _ => ([], inl (Some 0))
  | S754_finite sx m e => ([], inl (Some (clamp (exact_floor_div sx m e 60))))
  | S754_infinity _ => ([], inr OverflowError)
  | S754_nan => ([], inr ValueError)
  end.
Proof.
  intros Hs Hp Hv. rewrite parse_follower_duration_cases, Hp.
  apply String.eqb_neq in Hs. rewrite Hs. cbn [true_divide].
  destruct f as [sx|sx| |sx mx ex]; try reflexivity.
  destruct (float_floor_60 sx mx ex Hv) as (q & n & -> & -> & Hn).
  fold (clamp n). now rewrite Hn.
Qed.

Lemma parse_follower_duration_on_floats_witness :
  is_float ninety_minutes /\
  is_float almost_ninety_minutes /\
  parse_follower_duration (fun _ => Some (PyFloat ninety_minutes)) "1.5 hours"
  = ([], inl (Some 90)) /\
  parse_follower_duration (fun _ => Some (PyFloat almost_ninety_minutes))
    "1:29:59.999999999999"
  = ([], inl (Some 89)).
Proof.
  split; [reflexivity|]. split; [reflexivity|]. split.
  - exact (parse_follower_duration_on_floats
             (fun _ => Some (PyFloat ninety_minutes)) "1.5 hours" ninety_minutes
             ltac:(discriminate) eq_refl eq_refl).
  - exact (parse_follower_duration_on_floats
             (fun _ => Some (PyFloat almost_ninety_minutes))
             "1:29:59.999999999999" almost_ninety_minutes
             ltac:(discriminate) eq_refl eq_refl).
Defined.

(** X3: on every text whose parse is absent, an [int] below [2 ^ 1028] in
    magnitude or a finite float, the normaliser returns, and returns
    [None] or a duration within [0, 129600]. *)
Theorem parse_follower_duration_total parse s :
  (forall x, parse s = Some x -> in_domain x) ->
  exists tr v,
    parse_follower_duration parse s = (tr, inl v) /\
    match v with
    | Some minutes => 0 <= minutes <= 129600
    | None => True
    end.
Proof.
  intros Hdom. rewrite parse_follower_duration_cases.
  destruct (String.eqb_spec s "") as [->|Hs]; [now exists [], None|].
  destruct (parse s) as [[z|f]|] eqn:Hp;
    [| |now exists [LogError ("Failed to parse time from " ++ s)%string], None].
  - specialize (Hdom _ eq_refl). cbn [in_domain] in Hdom.
    pose proof (parse_follower_duration_cases parse s) as Hc.
    apply String.eqb_neq in Hs. rewrite Hs, Hp in Hc. rewrite <- Hc.
    destruct (parse_follower_duration_int parse s z) as [(n & -> & _)|Hov];
      [now apply String.eqb_neq | assumption | |].
    + exists [], (Some (clamp n)). split; [reflexivity | apply clamp_range].
    + exfalso. rewrite Hov in Hc. cbn [true_divide] in Hc.
      destruct (Z.eq_dec z 0) as [->|Hz]; [discriminate|].
      destruct (long_true_divide_60 z Hz Hdom) as (m & e & Hd & _).
      rewrite Hd in Hc. discriminate.
  - destruct (Hdom _ eq_refl) as [Hv Hf]. cbn [true_divide].
    destruct (float_div_60 f Hv Hf) as (q & -> & Hq).
    destruct q as [sq|sq| |sq mq eq]; try discriminate; cbn [math_floor];
      eexists [], (Some _); (split; [reflexivity | apply clamp_range]).
Qed.

Lemma parse_follower_duration_total_witness :
  in_domain (PyInt 60480000) /\
  exists tr v,
    parse_follower_duration Timeparse.parse "100 weeks" = (tr, inl v) /\
    match v with
    | Some minutes => 0 <= minutes <= 129600
    | None => True
    end.
Proof.
  assert (Hd : in_domain (PyInt 60480000)) by (apply Z.ltb_lt; reflexivity).
  split; [exact Hd|].
  apply (parse_follower_duration_total Timeparse.parse "100 weeks").
  intros x [= <-]. exact Hd.
Defined.

(** X4: whenever the normaliser returns a duration, it is within
    [0, 129600]. *)
Theorem returned_duration_is_bounded parse s tr v :
  parse_follower_duration parse s = (tr, inl (Some v)) -> 0 <= v <= 129600.
Proof. apply parse_follower_duration_range. Qed.

Lemma returned_duration_is_bounded_witness :
  parse_follower_duration Timeparse.parse "2w" = ([], inl (Some 20160)) /\
  0 <= 20160 <= 129600.
Proof.
  split; [reflexivity|].
  exact (returned_duration_is_bounded Timeparse.parse "2w" [] 20160 eq_refl).
Defined.

(** X5: the handlers are the table: each runs the five blocks in order,
    with its own phrase, when there is a bot. *)
Theorem handlers_follow_the_table parse st b :
  on_stream_start parse {| bot := Some b; settings := st |}
  = dispatch parse ONLINE_PHRASE st b /\
  on_stream_stop parse {| bot := Some b; settings := st |}
  = dispatch parse OFFLINE_PHRASE st b.
Proof. split; [apply on_stream_start_run | apply on_stream_stop_run]. Qed.

(** X6: the calls a handler makes, with their arguments, when no call
    raises anything but an [HTTPError] and the duration text normalises to
    [duration_m]: in the order emote-only, subscribers-only, unique chat,
    slow mode (with the [slow_time] setting) and followers-only (with the
    normalised duration), each present exactly when its trigger is the
    handler's phrase. *)
Theorem calls_made parse st b duration_m :
  only_http_errors b ->
  snd (parse_follower_duration parse (followersonly_time st)) = inl duration_m ->
  let sid := streamer_id b in
  let uid := bot_user_id b in
  let tok := bot_token_manager b in
  let calls phrase :=
    (if (emoteonly st =? phrase)%string
     then [update_emote_only_mode sid uid tok true] else []) ++
    (if (subonly st =? phrase)%string
     then [update_sub_mode sid uid tok true] else []) ++
    (if (r9k st =? phrase)%string
     then [update_unique_chat_mode sid uid tok true] else []) ++
    (if (slow_option st =? phrase)%string
     then [update_slow_mode sid uid tok true (slow_time st)] else []) ++
    (if (followersonly_option st =? phrase)%string
     then [update_follower_mode sid uid tok true duration_m] else []) in
  api_calls (fst (on_stream_start parse {| bot := Some b; settings := st |}))
  = calls ONLINE_PHRASE /\
  api_calls (fst (on_stream_stop parse {| bot := Some b; settings := st |}))
  = calls OFFLINE_PHRASE.
Proof.
  intros Hb Hp sid uid tok calls. subst sid uid tok calls.
  assert (Hr : returns (parse_follower_duration parse (followersonly_time st)))
    by (now exists duration_m).
  rewrite on_stream_start_run, on_stream_stop_run.
  fold (dispatch parse ONLINE_PHRASE st b) (dispatch parse OFFLINE_PHRASE st b).
  rewrite !dispatch_api_calls by assumption.
  unfold expected_calls, planned, arguments.
  cbn [all_categories flat_map trigger snd ret].
  rewrite snd_bind, Hp. cbn [snd ret].
  split;
    repeat match goal with
           | |- context [(?x =? ?y)%string] => destruct (x =? y)%string
           end; reflexivity.
Qed.

Lemma calls_made_witness :
  api_calls (fst (on_stream_start Timeparse.parse (module_with rejecting_api all_online)))
  = [update_emote_only_mode "11148817" "82008718" "bot-token" true;
     update_sub_mode "11148817" "82008718" "bot-token" true;
     update_unique_chat_mode "11148817" "82008718" "bot-token" true;
     update_slow_mode "11148817" "82008718" "bot-token" true 45;
     update_follower_mode "11148817" "82008718" "bot-token" true (Some 10080)].
Proof.
  exact (proj1 (calls_made Timeparse.parse all_online (bot_with rejecting_api)
                  (Some 10080) rejecting_api_only_http eq_refl)).
Defined.

Lemma error_logs_flat_map parse st b calls :
  error_logs (flat_map (events_of parse st b) calls) =
  flat_map (fun call => error_logs (prelude parse st (category_of call))
                        ++ failure_record b call) calls.
Proof.
  induction calls as [|call calls IH]; [reflexivity|].
  cbn [flat_map]. rewrite error_logs_app, IH. f_equal.
  unfold events_of. rewrite error_logs_app. f_equal.
  unfold reaction, failure_record.
  destruct (twitch_helix_api b call) as [|[| | |h|n]]; try reflexivity.
  destruct (status_code (response h) =? 401); reflexivity.
Qed.

(** X7: with a bot at hand, every event of a handler comes with an API
    call that the handler made: the trace is, call by call, what the
    normaliser logged (before the call of follower mode), the call, and
    the log record and notice of its failure.  A handler logs nothing and
    sends nothing but on behalf of a call it made, and a call that returns
    leaves no record. *)
Theorem handler_trace parse st b :
  let self := {| bot := Some b; settings := st |} in
  fst (on_stream_start parse self) =
  flat_map (events_of parse st b)
    (api_calls (fst (on_stream_start parse self))) /\
  fst (on_stream_stop parse self) =
  flat_map (events_of parse st b)
    (api_calls (fst (on_stream_stop parse self))).
Proof.
  intros self. subst self. rewrite on_stream_start_run, on_stream_stop_run.
  split; apply run_trace.
Qed.

(** X8: the chat messages and the error log in full.  The notices sent
    are those of the calls that failed with a 401, one each, in the order
    of the calls; the error log holds, call by call, what the normaliser
    logged for the call of follower mode and one record for a call that
    failed with an [HTTPError], and nothing else. *)
Theorem notices_and_error_logs parse st b :
  let self := {| bot := Some b; settings := st |} in
  let sent run :=
    notices (fst run) =
    map (fun call => reauth_notice (category_of call))
        (filter (unauthorized b) (api_calls (fst run))) in
  let logged run :=
    error_logs (fst run) =
    flat_map (fun call => error_logs (prelude parse st (category_of call))
                          ++ failure_record b call)
             (api_calls (fst run)) in
  sent (on_stream_start parse self) /\ logged (on_stream_start parse self) /\
  sent (on_stream_stop parse self) /\ logged (on_stream_stop parse self).
Proof.
  intros self sent logged. subst self sent logged. cbv beta.
  rewrite on_stream_start_run, on_stream_stop_run.
  repeat split.
  - rewrite run_trace at 1. apply notices_flat_map.
  - rewrite run_trace at 1. apply error_logs_flat_map.
  - rewrite run_trace at 1. apply notices_flat_map.
  - rewrite run_trace at 1. apply error_logs_flat_map.
Qed.

(** X9: whatever the API answers, the calls a handler makes are an
    initial segment of the calls expected of it, in the same order: a
    handler makes no call out of turn, none twice and none that is not
    expected; and when it returns [True] it has made them all. *)
Theorem calls_are_a_prefix parse st b :
  let self := {| bot := Some b; settings := st |} in
  (exists rest,
     expected_calls parse ONLINE_PHRASE st b
     = api_calls (fst (on_stream_start parse self)) ++ rest /\
     (snd (on_stream_start parse self) = inl true -> rest = [])) /\
  (exists rest,
     expected_calls parse OFFLINE_PHRASE st b
     = api_calls (fst (on_stream_stop parse self)) ++ rest /\
     (snd (on_stream_stop parse self) = inl true -> rest = [])).
Proof.
  intros self. subst self. rewrite on_stream_start_run, on_stream_stop_run.
  split; apply run_prefix.
Qed.

(** X10: no category is switched on by both events: the calls that the
    two handlers of a module make for one category are one at most. *)
Theorem never_on_both_events parse st b c :
  let self := {| bot := Some b; settings := st |} in
  (calls_for c (fst (on_stream_start parse self))
   + calls_for c (fst (on_stream_stop parse self)) <= 1)%nat.
Proof.
  intros self. subst self. rewrite on_stream_start_run, on_stream_stop_run.
  pose proof (dispatch_calls_for_le parse ONLINE_PHRASE st b c) as Hon.
  pose proof (dispatch_calls_for_le parse OFFLINE_PHRASE st b c) as Hoff.
  unfold dispatch in Hon, Hoff. revert Hon Hoff.
  destruct (String.eqb_spec (trigger st c) ONLINE_PHRASE) as [E|_];
    destruct (String.eqb_spec (trigger st c) OFFLINE_PHRASE) as [E'|_];
    intros Hon Hoff; try lia.
  rewrite E in E'. discriminate.
Qed.

(** X11: a setting that the event does not trigger is not read.  When
    the trigger of slow mode is not the handler's phrase, the handler does
    the same whatever [slow_time] is; when the trigger of followers-only
    mode is not the handler's phrase, the handler does the same whatever
    [followersonly_time] is and however the parser would read it. *)
Theorem untriggered_settings_are_not_read parse parse' st b seconds duration :
  let self := {| bot := Some b; settings := st |} in
  let slow := {| bot := Some b; settings := with_slow_time st seconds |} in
  let followers :=
    {| bot := Some b; settings := with_followersonly_time st duration |} in
  (slow_option st <> ONLINE_PHRASE ->
   on_stream_start parse slow = on_stream_start parse self) /\
  (slow_option st <> OFFLINE_PHRASE ->
   on_stream_stop parse slow = on_stream_stop parse self) /\
  (followersonly_option st <> ONLINE_PHRASE ->
   on_stream_start parse' followers = on_stream_start parse self) /\
  (followersonly_option st <> OFFLINE_PHRASE ->
   on_stream_stop parse' followers = on_stream_stop parse self).
Proof.
  intros self slow followers. subst self slow followers.
  rewrite !on_stream_start_run, !on_stream_stop_run.
  repeat split; intros H.
  - now apply dispatch_frame_slow_time.
  - now apply dispatch_frame_slow_time.
  - now apply dispatch_frame_duration.
  - now apply dispatch_frame_duration.
Qed.

Lemma untriggered_settings_are_not_read_witness :
  on_stream_stop Timeparse.parse
    (module_with rejecting_api (with_slow_time scenario 120))
  = on_stream_stop Timeparse.parse (module_with rejecting_api scenario) /\
  on_stream_start (fun _ => None)
    (module_with rejecting_api (with_followersonly_time scenario "2 fortnights"))
  = on_stream_start Timeparse.parse (module_with rejecting_api scenario).
Proof.
  destruct (untriggered_settings_are_not_read
              Timeparse.parse (fun _ => None) scenario (bot_with rejecting_api)
              120 "2 fortnights") as (_ & Hslow & Hfollowers & _).
  split; [apply Hslow | apply Hfollowers]; discriminate.
Defined.

(** X12: every call that a handler makes, whether it goes through or
    not, is made on the streamer's channel, as the bot user, with the
    bot's token and state [True]; slow mode is set with the [slow_time]
    setting as it is, follower mode with no duration or one within
    [0, 129600] minutes. *)
Theorem well_formed_calls parse st b :
  let self := {| bot := Some b; settings := st |} in
  Forall (well_formed st b) (api_calls (fst (on_stream_start parse self))) /\
  Forall (well_formed st b) (api_calls (fst (on_stream_stop parse self))).
Proof.
  intros self. subst self. rewrite on_stream_start_run, on_stream_stop_run.
  split; apply run_well_formed.
Qed.

(** X13: an exception of the normaliser leaves the handler.  When the
    trigger of followers-only mode is the handler's phrase and the
    normaliser raises on the duration text, the handler raises the same
    exception instead of returning [True], after calling each of the other
    four categories whose trigger matches exactly once, and without any
    call of follower mode (no API call raising anything but an
    [HTTPError]). *)
Theorem normaliser_failure_leaves_the_handler parse st b e :
  only_http_errors b ->
  snd (parse_follower_duration parse (followersonly_time st)) = inr e ->
  let self := {| bot := Some b; settings := st |} in
  (followersonly_option st = ONLINE_PHRASE ->
   snd (on_stream_start parse self) = inr e /\
   forall c, calls_for c (fst (on_stream_start parse self)) =
             if category_eqb c FollowersOnly then 0%nat
             else if (trigger st c =? ONLINE_PHRASE)%string then 1%nat
                  else 0%nat) /\
  (followersonly_option st = OFFLINE_PHRASE ->
   snd (on_stream_stop parse self) = inr e /\
   forall c, calls_for c (fst (on_stream_stop parse self)) =
             if category_eqb c FollowersOnly then 0%nat
             else if (trigger st c =? OFFLINE_PHRASE)%string then 1%nat
                  else 0%nat).
Proof.
  intros Hb Hp self. subst self. rewrite on_stream_start_run, on_stream_stop_run.
  split; intros Ht; now apply dispatch_normaliser_raises.
Qed.

Lemma normaliser_failure_leaves_the_handler_witness :
  let self :=
    module_with rejecting_api (with_followersonly_time all_online huge_duration) in
  only_http_errors (bot_with rejecting_api) /\
  snd (parse_follower_duration Timeparse.parse huge_duration) = inr OverflowError /\
  snd (on_stream_start Timeparse.parse self) = inr OverflowError /\
  calls_for FollowersOnly (fst (on_stream_start Timeparse.parse self)) = 0%nat /\
  calls_for Slow (fst (on_stream_start Timeparse.parse self)) = 1%nat.
Proof.
  cbv zeta.
  assert (Hp : snd (parse_follower_duration Timeparse.parse huge_duration)
               = inr OverflowError) by (vm_compute; reflexivity).
  destruct (normaliser_failure_leaves_the_handler
              Timeparse.parse (with_followersonly_time all_online huge_duration)
              (bot_with rejecting_api) OverflowError
              rejecting_api_only_http Hp) as [Hstart _].
  destruct (Hstart eq_refl) as [Hsnd Hcalls].
  split; [exact rejecting_api_only_http|]. split; [exact Hp|].
  split; [exact Hsnd|].
  split; [exact (Hcalls FollowersOnly) | exact (Hcalls Slow)].
Defined.

(** X14: a handler with nothing to do does nothing: when no trigger is
    the handler's phrase, it makes no call, logs nothing, sends nothing
    and returns [True], whatever the API and the parser would do.  So it
    is with the default settings, under both events. *)
Theorem idle_handler parse st b :
  let self := {| bot := Some b; settings := st |} in
  ((forall c, trigger st c <> ONLINE_PHRASE) ->
   on_stream_start parse self = ([], inl true)) /\
  ((forall c, trigger st c <> OFFLINE_PHRASE) ->
   on_stream_stop parse self = ([], inl true)).
Proof.
  intros self. subst self. rewrite on_stream_start_run, on_stream_stop_run.
  split; apply dispatch_idle.
Qed.

Lemma idle_handler_witness :
  on_stream_start Timeparse.parse (module_with unreachable_api default_settings)
  = ([], inl true) /\
  on_stream_stop Timeparse.parse (module_with unreachable_api default_settings)
  = ([], inl true).
Proof.
  destruct (idle_handler Timeparse.parse default_settings (bot_with unreachable_api))
    as [Hstart Hstop].
  split; [apply Hstart | apply Hstop]; intros []; discriminate.
Defined.

(** X15: the table [SETTINGS] is consistent with itself: its keys are
    pairwise distinct; the default of every entry is a value the entry
    admits (the default of a trigger is among its options, 30 lies within
    [min_value, max_value] of [slow_time]); and every trigger offers the
    three phrases and is "Never" by default, which is neither of the
    phrases that the handlers look for. *)
Theorem SETTINGS_consistent :
  NoDup (map key SETTINGS) /\
  Forall (fun s => admits s (default s) = true) SETTINGS /\
  Forall (fun s => type s = "options" ->
                   options s = PHRASE_OPTIONS /\
                   default s = VStr NEVER_PHRASE) SETTINGS /\
  NEVER_PHRASE <> ONLINE_PHRASE /\ NEVER_PHRASE <> OFFLINE_PHRASE.
Proof.
  split; [|split; [|split; [|split]]].
  - repeat constructor; cbn; intuition discriminate.
  - repeat constructor.
  - repeat (apply Forall_cons;
            [cbn; intros H; try discriminate H; now split|]).
    apply Forall_nil.
  - discriminate.
  - discriminate.
Qed.
